(** * Signal handlers for memory zones (runtime/mercury_memory_handlers.c)

    A shallow embedding of the Mercury runtime's guard-page fault handling:
    the fault router [try_munprotect], the two zone handlers
    [default_handler] and [null_handler], the signal-safe abort path
    [fatal_abort], the stack-dump printer [print_dump_stack], and the three
    build variants of [setup_signal] with their signal handlers.

    Conventions of the embedding.
    - Addresses and machine integers are [Z]; arithmetic done by the C code in
      the unsigned type [Unsigned] is reduced modulo [2 ^ ptr_bits].
    - A C function is a computation in the monad [M]: it threads the [world]
      (the registered zones and the trace of output and system calls issued
      so far) and either returns or terminates the process with a status.
    - A [MemoryZone *] argument is passed as the zone's value; a handler
      gives back the zone as it has left it, and the router stores it at the
      zone's position in the list of used zones.  The [next] link of a zone
      is the tail of that list.
    - Conditional compilation is a [build] record of the macros tested by
      the file; platform constants that come from system headers are the
      fields of [platform]; results of system calls are given by [os].
    - Formatted output is rendered to the string that reaches the stream.
      The fixed-size buffers ([buf[2560]], [buf[100]]) are assumed large
      enough for the text written into them. *)

From Stdlib Require Import ZArith List String Ascii Bool Lia.
From Stdlib Require DecimalString HexadecimalString.
Import ListNotations.
Open Scope string_scope.
Open Scope list_scope.
Open Scope Z_scope.

Infix "+++" := String.append (at level 60, right associativity).

(** C's [void], kept apart from the global variable [unit] of the runtime. *)
Definition void : Set := Datatypes.unit.

(** ** Platform, build and environment *)

(** Constants and conventions fixed by the target's headers and C library. *)
Record platform := {
  ptr_bits : Z;                (* width of a pointer and of [Unsigned] *)
  long_bits : Z;               (* width of [long] *)
  int_bits : Z;                (* width of [int] *)
  sizeof_Word : Z;             (* sizeof(Word) *)
  SIGBUS : Z;
  SIGSEGV : Z;
  BUS_ADRALN : Z;
  BUS_ADRERR : Z;
  BUS_OBJERR : Z;
  SEGV_MAPERR : Z;
  SEGV_ACCERR : Z;
  PROT_READ : Z;
  PROT_WRITE : Z;
  SA_SIGINFO : Z;
  SA_RESTART : Z;
  show_ptr : Z -> string       (* the implementation-defined rendering of %p *)
}.

(** The configuration macros the file tests with #if / #ifdef. *)
Record build := {
  HAVE_MPROTECT : bool;
  HAVE_SIGINFO : bool;
  HAVE_SIGCONTEXT_STRUCT : bool;
  HAVE_SIGINFO_T : bool;
  PC_ACCESS : bool;
  MR_LOWLEVEL_DEBUG : bool
}.

(** [#if defined(HAVE_MPROTECT) && defined(HAVE_SIGINFO)] *)
Definition full_build (B : build) : bool := HAVE_MPROTECT B && HAVE_SIGINFO B.

(** The signal handlers this file can install. *)
Inductive sighandler :=
| complex_sighandler_ptr
| complex_bushandler_ptr
| complex_segvhandler_ptr
| simple_sighandler_ptr.

(** What the process does to the outside, in program order. *)
Inductive event :=
| E_write (fd : Z) (buf : string)              (* write(fd, buf, strlen(buf)) *)
| E_fprintf_stderr (text : string)             (* fprintf(stderr, ...) *)
| E_fflush_stdout                              (* fflush(stdout) *)
| E_perror (s : string)                        (* perror(s) *)
| E_mprotect (addr len prot : Z)               (* mprotect(addr, len, prot) *)
| E_signal (sig : Z) (h : sighandler)          (* signal(sig, h) *)
| E_sigemptyset                                (* sigemptyset(&act.sa_mask) *)
| E_sigaction (sig flags : Z) (h : sighandler) (* sigaction(sig, &act, NULL) *)
| E_MR_trace_report_raw (fd : Z)               (* MR_trace_report_raw(fd) *)
| E_MR_trace_report                            (* MR_trace_report(stderr) *)
| E_dump_prev_locations.                       (* dump_prev_locations() *)

(** Results of the system calls, as a function of what the process has done
    so far and of the call's arguments. *)
Record os := {
  mprotect_result : list event -> Z -> Z -> Z -> Z;  (* < 0 on failure *)
  signal_is_SIG_ERR : list event -> Z -> bool;
  sigemptyset_result : list event -> Z;              (* 0 on success *)
  sigaction_result : list event -> Z -> Z            (* 0 on success *)
}.

(** ** Data model *)

(** The handler bound to a zone: the [ZoneHandler *] field holds the address
    of one of the two handlers defined here.  Zones bound to a handler defined
    elsewhere are outside this development. *)
Inductive ZoneHandler := default_handler_ptr | null_handler_ptr.

(** The fields of [MemoryZone] this file reads or writes. *)
Record MemoryZone := {
  name : string;
  id : Z;
  min : Z;
  top : Z;
  hardmax : Z;
  redzone : Z;
  handler : ZoneHandler
}.

Definition set_redzone (zone : MemoryZone) (new_zone : Z) : MemoryZone :=
  {| name := name zone; id := id zone; min := min zone; top := top zone;
     hardmax := hardmax zone; redzone := new_zone; handler := handler zone |}.

(** The platform context handed to a handler: the registers the file reads
    ([sigcontext.cr2], and the program counter named by [PC_ACCESS]). *)
Record sigcontext := {
  cr2 : Z;
  pc_at_signal : Z
}.

(** [siginfo_t], the fields read. *)
Record siginfo_t := {
  si_signo : Z;
  si_code : Z;
  si_addr : Z
}.

(** Global variables of the runtime that this file only reads. *)
Record globals := {
  memdebug : bool;
  unit : Z;                       (* the protection granularity *)
  dumpstack : list string         (* ((char ** ) dumpstack_zone->min)[0 .. dumpindex-1] *)
}.

Definition dumpindex (G : globals) : Z := Z.of_nat (List.length (dumpstack G)).

(** Mutable state: the list behind [get_used_memory_zones()] and the trace. *)
Record world := {
  used_memory_zones : list MemoryZone;
  trace : list event
}.

(** ** The monad of C computations *)

Inductive outcome (A : Type) :=
| Ret (a : A) (w : world)          (* the function returns [a] *)
| Exit (status : Z) (w : world).   (* exit(status) or _exit(status) *)
Arguments Ret {A} a w.
Arguments Exit {A} status w.

Definition M (A : Type) : Type := world -> outcome A.

Definition ret {A} (a : A) : M A := fun w => Ret a w.

Definition bind {A B} (m : M A) (k : A -> M B) : M B :=
  fun w => match m w with
           | Ret a w' => k a w'
           | Exit s w' => Exit s w'
           end.

Definition exit {A} (status : Z) : M A := fun w => Exit status w.

(** The world after the process has further done [es]. *)
Definition log (w : world) (es : list event) : world :=
  {| used_memory_zones := used_memory_zones w; trace := trace w ++ es |}.

Definition emit (e : event) : M void := fun w => Ret tt (log w [e]).

Definition get_used_memory_zones : M (list MemoryZone) :=
  fun w => Ret (used_memory_zones w) w.

Definition put_used_memory_zones (zs : list MemoryZone) : M void :=
  fun w => Ret tt {| used_memory_zones := zs; trace := trace w |}.

Definition get_trace : M (list event) := fun w => Ret (trace w) w.

Definition when (b : bool) (m : M void) : M void := if b then m else ret tt.

Declare Scope c_scope.
Delimit Scope c_scope with C.
Notation "x <- m ;; k" := (bind m (fun x => k))
  (at level 61, m at next level, right associativity) : c_scope.
Notation "' p <- m ;; k" := (bind m (fun x => let p := x in k))
  (at level 61, p pattern, m at next level, right associativity) : c_scope.
Notation "m ;; k" := (bind m (fun _ => k))
  (at level 61, right associativity) : c_scope.
Open Scope c_scope.

(** The status and final world of a computation, and what it wrote. *)
Definition world_of {A} (o : outcome A) : world :=
  match o with Ret _ w => w | Exit _ w => w end.

Definition exit_status {A} (o : outcome A) : option Z :=
  match o with Ret _ _ => None | Exit s _ => Some s end.

(** ** Formatting *)

Definition nl : string := String (ascii_of_nat 10) EmptyString.

(** Two's complement readings of a value at a given width. *)
Definition to_unsigned (bits v : Z) : Z := v mod 2 ^ bits.

Definition to_signed (bits v : Z) : Z :=
  let u := to_unsigned bits v in
  if u <? 2 ^ (bits - 1) then u else u - 2 ^ bits.

Definition decimal (v : Z) : string :=
  DecimalString.NilZero.string_of_int (Z.to_int v).

Definition hexadecimal (v : Z) : string :=
  HexadecimalString.NilZero.string_of_uint (N.to_hex_uint (Z.to_N v)).

(** ** Rounding *)

(** The least multiple of [align] that is not below [amount], for a positive
    [align]. *)
Definition ceiling_multiple (amount align : Z) : Z :=
  (amount + align - 1) / align * align.

Section Handlers.

Variable P : platform.
Variable B : build.
Variable K : os.
Variable G : globals.

(** %d of an [int], %ld and %lx of a [long], %x of an [int], %p. *)
Definition fmt_d (v : Z) : string := decimal v.
Definition fmt_ld (v : Z) : string := decimal (to_signed (long_bits P) v).
Definition fmt_lx (v : Z) : string := hexadecimal (to_unsigned (long_bits P) v).
Definition fmt_x (v : Z) : string := hexadecimal (to_unsigned (int_bits P) v).
Definition fmt_p (v : Z) : string := show_ptr P v.

Definition fprintf_stderr (text : string) : M void := emit (E_fprintf_stderr text).

Definition STDERR : Z := 2.

Definition write (fd : Z) (buf : string) : M void := emit (E_write fd buf).

(** ** Address arithmetic *)

(** Arithmetic in [Unsigned]. *)
Definition wrap (v : Z) : Z := v mod 2 ^ ptr_bits P.

(** Modelled from the spec: the macro [round_up] is defined in a header that
    is not among the sources; the C file only carries its description,
    "round_up(amount, align) returns `amount' rounded up to the nearest
    alignment boundary", and the specification uses it as
    [round_up(fault_address + one_word, alignment_unit)].  The result is the
    least multiple of [align] that is not below [amount], computed in
    [Unsigned]. *)
Definition round_up (amount align : Z) : Z :=
  wrap (ceiling_multiple amount align).

(** ** System calls *)

Definition fflush_stdout : M void := emit E_fflush_stdout.

Definition perror (s : string) : M void := emit (E_perror s).

Definition mprotect (addr len prot : Z) : M Z :=
  t <- get_trace;;
  emit (E_mprotect addr len prot);;
  ret (mprotect_result K t addr len prot).

(** [signal(sig, h) == SIG_ERR] *)
Definition signal (sig : Z) (h : sighandler) : M bool :=
  t <- get_trace;;
  emit (E_signal sig h);;
  ret (signal_is_SIG_ERR K t sig).

Definition sigemptyset : M Z :=
  t <- get_trace;;
  emit E_sigemptyset;;
  ret (sigemptyset_result K t).

Definition sigaction (sig flags : Z) (h : sighandler) : M Z :=
  t <- get_trace;;
  emit (E_sigaction sig flags h);;
  ret (sigaction_result K t sig).

(** ** print_dump_stack *)

Definition dump_header : string := "A dump of the det stack follows" +++ nl +++ nl.

Definition dump_trailer : string := nl +++ "end of stack dump" +++ nl.

Definition dump_hint : string :=
  "You can get a stack dump by using `--low-level-debug'" +++ nl.

(** [((char ** )(dumpstack_zone->min))[i]] *)
Definition dump_entry (i : Z) : string := nth (Z.to_nat i) (dumpstack G) "".

(** The inner loop: advance [i] over the entries equal to entry [start]. *)
Fixpoint dump_run (fuel : nat) (start i count : Z) : Z * Z :=
  match fuel with
  | O => (i, count)
  | S fuel' =>
      if (i <? dumpindex G) && (dump_entry i =? dump_entry start)%string
      then dump_run fuel' start (i + 1) (count + 1)
      else (i, count)
  end.

(** The line printed for a run: "%s * %d\n" when [count > 1], else "%s\n". *)
Definition dump_line (label : string) (count : Z) : string :=
  if 1 <? count
  then label +++ " * " +++ fmt_d count +++ nl
  else label +++ nl.

(** The outer loop, from index [i]. *)
Fixpoint dump_loop (fuel : nat) (i : Z) : M void :=
  match fuel with
  | O => ret tt
  | S fuel' =>
      if i <? dumpindex G then
        let start := i in
        let '(i', count) := dump_run fuel' start (i + 1) 1 in
        write STDERR (dump_line (dump_entry start) count);;
        dump_loop fuel' i'
      else ret tt
  end.

(** Both loops advance [i] by at least one per iteration and stop at
    [dumpindex], so [dumpindex] iterations are enough for each. *)
Definition print_dump_stack : M void :=
  if MR_LOWLEVEL_DEBUG B then
    write STDERR dump_header;;
    dump_loop (Z.to_nat (dumpindex G)) 0;;
    write STDERR dump_trailer
  else
    write STDERR dump_hint.

(** ** explain_context and fatal_abort *)

(** Both definitions of [explain_context] (for [struct sigcontext_struct]
    and for [ucontext_t]) print the program counter found in the context when
    [PC_ACCESS] is defined, and give the empty string otherwise. *)
Definition explain_context (the_context : sigcontext) : string :=
  if PC_ACCESS B then
    "PC at signal: " +++ fmt_ld (pc_at_signal the_context)
      +++ " (" +++ fmt_lx (pc_at_signal the_context) +++ ")" +++ nl
  else "".

Definition fatal_abort (context : sigcontext) (main_msg : string) (dump : bool)
  : M void :=
  let context_msg := explain_context context in
  write STDERR main_msg;;
  write STDERR context_msg;;
  emit (E_MR_trace_report_raw STDERR);;
  when dump print_dump_stack;;
  exit 1.

(** ** The zone handlers *)

(** "%s#%d" of a zone's name and id. *)
Definition zone_label (zone : MemoryZone) : string :=
  name zone +++ "#" +++ fmt_d (id zone).

(** The texts of [default_handler]. *)
Definition msg_trying (zone : MemoryZone) (new_zone zone_size : Z) : string :=
  "trying to unprotect " +++ zone_label zone +++ " from "
    +++ fmt_p (redzone zone) +++ " to " +++ fmt_p new_zone
    +++ " (" +++ fmt_x zone_size +++ ")" +++ nl.

Definition msg_cannot_unprotect (zone : MemoryZone) : string :=
  "Mercury runtime: cannot unprotect " +++ zone_label zone +++ " zone".

Definition msg_successful (zone : MemoryZone) : string :=
  "successful: " +++ zone_label zone +++ " redzone now "
    +++ fmt_p (redzone zone) +++ " to " +++ fmt_p (top zone) +++ nl.

Definition msg_last_page (zone : MemoryZone) : string :=
  "can't unprotect last page of " +++ zone_label zone +++ nl.

Definition msg_overflowed (zone : MemoryZone) : string :=
  nl +++ "Mercury runtime: memory zone " +++ zone_label zone
     +++ " overflowed" +++ nl.

Definition default_handler (fault_addr : Z) (zone : MemoryZone)
    (context : sigcontext) : M (bool * MemoryZone) :=
  if full_build B then
    let new_zone := round_up (wrap (fault_addr + sizeof_Word P)) (unit G) in
    if new_zone <=? hardmax zone then
      let zone_size := wrap (new_zone - redzone zone) in
      when (memdebug G) (fprintf_stderr (msg_trying zone new_zone zone_size));;
      r <- mprotect (redzone zone) zone_size (Z.lor (PROT_READ P) (PROT_WRITE P));;
      (if r <? 0 then
         perror (msg_cannot_unprotect zone);;
         exit 1
       else ret tt);;
      let zone := set_redzone zone new_zone in
      when (memdebug G) (fprintf_stderr (msg_successful zone));;
      ret (true, zone)
    else
      when (memdebug G) (fprintf_stderr (msg_last_page zone);; fflush_stdout);;
      fatal_abort context (msg_overflowed zone) true;;
      ret (false, zone)
  else ret (false, zone).

Definition null_handler (fault_addr : Z) (zone : MemoryZone)
    (context : sigcontext) : M (bool * MemoryZone) :=
  ret (false, zone).

(** [zone->handler(fault_addr, zone, context)] *)
Definition call_handler (h : ZoneHandler)
  : Z -> MemoryZone -> sigcontext -> M (bool * MemoryZone) :=
  match h with
  | default_handler_ptr => default_handler
  | null_handler_ptr => null_handler
  end.

(** ** The fault router *)

(** The texts of [try_munprotect]. *)
Definition msg_caught (addr : Z) : string :=
  "caught fault at " +++ fmt_p addr +++ nl.

Definition msg_checking (zone : MemoryZone) : string :=
  "checking " +++ zone_label zone +++ ": "
    +++ fmt_p (redzone zone) +++ " - " +++ fmt_p (top zone) +++ nl.

Definition msg_in_redzone (zone : MemoryZone) : string :=
  "address is in " +++ zone_label zone +++ " redzone" +++ nl.

Definition msg_no_redzone : string := "address not in any redzone." +++ nl.

(** The [while (zone != NULL)] loop of [try_munprotect], on the zones from
    [zone] on; it gives back those zones as the handler has left them. *)
Fixpoint try_munprotect_from (zone : list MemoryZone) (fault_addr : Z)
    (context : sigcontext) : M (bool * list MemoryZone) :=
  match zone with
  | [] =>
      when (memdebug G) (fprintf_stderr msg_no_redzone);;
      ret (false, [])
  | z :: next =>
      when (memdebug G) (fprintf_stderr (msg_checking z));;
      if (redzone z <=? fault_addr) && (fault_addr <=? top z) then
        when (memdebug G) (fprintf_stderr (msg_in_redzone z));;
        '(r, z') <- call_handler (handler z) fault_addr z context;;
        ret (r, z' :: next)
      else
        '(r, next') <- try_munprotect_from next fault_addr context;;
        ret (r, z :: next')
  end.

Definition try_munprotect (addr : Z) (context : sigcontext) : M bool :=
  if full_build B then
    let fault_addr := addr in
    zone <- get_used_memory_zones;;
    when (memdebug G) (fprintf_stderr (msg_caught addr));;
    '(r, zone') <- try_munprotect_from zone fault_addr context;;
    put_used_memory_zones zone';;
    ret r
  else ret false.

(** ** Signal handlers *)

Definition segv_banner : string :=
  nl +++ "*** Mercury runtime: caught segmentation violation ***" +++ nl.

(** The common end of every signal handler: the prior locations and exit. *)
Definition exit_from_signal_handler : M void :=
  print_dump_stack;;
  emit E_dump_prev_locations;;
  fprintf_stderr ("exiting from signal handler" +++ nl);;
  exit 1.

(** [#if defined(HAVE_SIGCONTEXT_STRUCT)] *)
Definition complex_sighandler (sig : Z) (sigcontext : sigcontext) : M void :=
  let address := cr2 sigcontext in
  let report : M void :=
    when (PC_ACCESS B)
      (fprintf_stderr ("PC at signal: " +++ fmt_ld (pc_at_signal sigcontext)
         +++ " (" +++ fmt_lx (pc_at_signal sigcontext) +++ ")" +++ nl));;
    fprintf_stderr ("address involved: " +++ fmt_p address +++ nl);;
    emit E_MR_trace_report;;
    exit_from_signal_handler in
  if sig =? SIGSEGV P then
    when (memdebug G) (fflush_stdout;; fprintf_stderr segv_banner);;
    handled <- try_munprotect address sigcontext;;
    if handled then
      when (memdebug G)
        (fprintf_stderr ("returning from signal handler" +++ nl +++ nl))
    else
      when (negb (memdebug G)) (fflush_stdout;; fprintf_stderr segv_banner);;
      report
  else if sig =? SIGBUS P then
    fflush_stdout;;
    fprintf_stderr (nl +++ "*** Mercury runtime: caught bus error ***" +++ nl);;
    report
  else
    fflush_stdout;;
    fprintf_stderr (nl +++ "*** Mercury runtime: caught unknown signal "
                       +++ fmt_d sig +++ " ***" +++ nl);;
    report.

(** [#elif defined(HAVE_SIGINFO_T)]; [info] may be a null pointer. *)
Definition complex_bushandler (sig : Z) (info : option siginfo_t)
    (context : sigcontext) : M void :=
  fflush_stdout;;
  match info with
  | Some info' =>
      if negb (sig =? SIGBUS P) || negb (si_signo info' =? SIGBUS P) then
        fprintf_stderr (nl +++ "*** Mercury runtime: ");;
        fprintf_stderr ("caught strange bus error ***" +++ nl);;
        exit 1
      else
        fprintf_stderr (nl +++ "*** Mercury runtime: ");;
        fprintf_stderr ("caught bus error ***" +++ nl);;
        when (0 <? si_code info')
          (fprintf_stderr "cause: ";;
           (if si_code info' =? BUS_ADRALN P then
              fprintf_stderr ("invalid address alignment" +++ nl)
            else if si_code info' =? BUS_ADRERR P then
              fprintf_stderr ("non-existent physical address" +++ nl)
            else if si_code info' =? BUS_OBJERR P then
              fprintf_stderr ("object specific hardware error" +++ nl)
            else fprintf_stderr ("unknown" +++ nl));;
           fprintf_stderr (explain_context context);;
           fprintf_stderr ("address involved: " +++ fmt_p (si_addr info') +++ nl));;
        emit E_MR_trace_report;;
        exit_from_signal_handler
  | None =>
      fprintf_stderr (nl +++ "*** Mercury runtime: ");;
      fprintf_stderr ("caught strange bus error ***" +++ nl);;
      exit 1
  end.

Definition explain_segv (info : option siginfo_t) (context : sigcontext) : M void :=
  fflush_stdout;;
  fprintf_stderr (nl +++ "*** Mercury runtime: ");;
  fprintf_stderr ("caught segmentation violation ***" +++ nl);;
  match info with
  | None => ret tt
  | Some info' =>
      when (0 <? si_code info')
        (fprintf_stderr "cause: ";;
         (if si_code info' =? SEGV_MAPERR P then
            fprintf_stderr ("address not mapped to object" +++ nl)
          else if si_code info' =? SEGV_ACCERR P then
            fprintf_stderr ("bad permissions for mapped object" +++ nl)
          else fprintf_stderr ("unknown" +++ nl));;
         fprintf_stderr (explain_context context);;
         fprintf_stderr ("address involved: " +++ fmt_p (si_addr info') +++ nl))
  end.

Definition complex_segvhandler (sig : Z) (info : option siginfo_t)
    (context : sigcontext) : M void :=
  match info with
  | Some info' =>
      if negb (sig =? SIGSEGV P) || negb (si_signo info' =? SIGSEGV P) then
        fprintf_stderr (nl +++ "*** Mercury runtime: ");;
        fprintf_stderr ("caught strange segmentation violation ***" +++ nl);;
        exit 1
      else
        when (memdebug G) (explain_segv info context);;
        handled <- try_munprotect (si_addr info') context;;
        if handled then
          when (memdebug G)
            (fprintf_stderr ("returning from signal handler" +++ nl +++ nl))
        else
          when (negb (memdebug G)) (explain_segv info context);;
          emit E_MR_trace_report;;
          exit_from_signal_handler
  | None =>
      fprintf_stderr (nl +++ "*** Mercury runtime: ");;
      fprintf_stderr ("caught strange segmentation violation ***" +++ nl);;
      exit 1
  end.

(** [#else]: neither [HAVE_SIGCONTEXT_STRUCT] nor [HAVE_SIGINFO_T]. *)
Definition simple_sighandler (sig : Z) : M void :=
  fflush_stdout;;
  fprintf_stderr "*** Mercury runtime: ";;
  (if sig =? SIGBUS P then
     fprintf_stderr ("caught bus error ***" +++ nl)
   else if sig =? SIGSEGV P then
     fprintf_stderr ("caught segmentation violation ***" +++ nl)
   else
     fprintf_stderr ("caught unknown signal " +++ fmt_d sig +++ " ***" +++ nl));;
  exit_from_signal_handler.

(** ** setup_signal *)

(** [if (failed) { perror(msg); exit(1); }] *)
Definition fail_if (failed : bool) (msg : string) : M void :=
  if failed then perror msg;; exit 1 else ret tt.

Definition setup_signal : M void :=
  if HAVE_SIGCONTEXT_STRUCT B then
    e <- signal (SIGBUS P) complex_sighandler_ptr;;
    fail_if e "cannot set SIGBUS handler";;
    e <- signal (SIGSEGV P) complex_sighandler_ptr;;
    fail_if e "cannot set SIGSEGV handler"
  else if HAVE_SIGINFO_T B then
    let sa_flags := Z.lor (SA_SIGINFO P) (SA_RESTART P) in
    r <- sigemptyset;;
    fail_if (negb (r =? 0)) "Mercury runtime: cannot set clear signal mask";;
    r <- sigaction (SIGBUS P) sa_flags complex_bushandler_ptr;;
    fail_if (negb (r =? 0)) "Mercury runtime: cannot set SIGBUS handler";;
    r <- sigaction (SIGSEGV P) sa_flags complex_segvhandler_ptr;;
    fail_if (negb (r =? 0)) "Mercury runtime: cannot set SIGSEGV handler"
  else
    e <- signal (SIGBUS P) simple_sighandler_ptr;;
    fail_if e "cannot set SIGBUS handler";;
    e <- signal (SIGSEGV P) simple_sighandler_ptr;;
    fail_if e "cannot set SIGSEGV handler".

End Handlers.

(** ** A concrete target: 32-bit Linux with the C library's "0x..." pointers *)

Definition glibc_show_ptr (v : Z) : string :=
  if v =? 0 then "(nil)" else "0x" +++ hexadecimal v.

Definition linux_x86 : platform :=
  {| ptr_bits := 32; long_bits := 32; int_bits := 32; sizeof_Word := 4;
     SIGBUS := 7; SIGSEGV := 11;
     BUS_ADRALN := 1; BUS_ADRERR := 2; BUS_OBJERR := 3;
     SEGV_MAPERR := 1; SEGV_ACCERR := 2;
     PROT_READ := 1; PROT_WRITE := 2;
     SA_SIGINFO := 4; SA_RESTART := 268435456;
     show_ptr := glibc_show_ptr |}.

(** The build with every capability but the low-level debugging dump. *)
Definition siginfo_build : build :=
  {| HAVE_MPROTECT := true; HAVE_SIGINFO := true;
     HAVE_SIGCONTEXT_STRUCT := false; HAVE_SIGINFO_T := true;
     PC_ACCESS := true; MR_LOWLEVEL_DEBUG := false |}.

Definition debug_build : build :=
  {| HAVE_MPROTECT := true; HAVE_SIGINFO := true;
     HAVE_SIGCONTEXT_STRUCT := false; HAVE_SIGINFO_T := true;
     PC_ACCESS := true; MR_LOWLEVEL_DEBUG := true |}.

(** An operating system on which every call succeeds. *)
Definition obliging_os : os :=
  {| mprotect_result := fun _ _ _ _ => 0;
     signal_is_SIG_ERR := fun _ _ => false;
     sigemptyset_result := fun _ => 0;
     sigaction_result := fun _ _ => 0 |}.

(** An operating system that refuses every protection change. *)
Definition refusing_os : os :=
  {| mprotect_result := fun _ _ _ _ => -1;
     signal_is_SIG_ERR := fun _ _ => true;
     sigemptyset_result := fun _ => 0;
     sigaction_result := fun _ _ => -1 |}.

Definition quiet (labels : list string) : globals :=
  {| memdebug := false; unit := 4096; dumpstack := labels |}.

Definition verbose (labels : list string) : globals :=
  {| memdebug := true; unit := 4096; dumpstack := labels |}.

(** The zone "detstack"#0 of the specification's scenarios. *)
Definition detstack : MemoryZone :=
  {| name := "detstack"; id := 0; min := 4096; top := 12288; hardmax := 36864;
     redzone := 12032; handler := default_handler_ptr |}.

Definition a_context : sigcontext := {| cr2 := 12112; pc_at_signal := 134513000 |}.

Definition start_world (zs : list MemoryZone) : world :=
  {| used_memory_zones := zs; trace := [] |}.

(** ** Notions used to state the properties *)

(** The router's test: the fault address lies in [redzone, top]. *)
Definition in_redzone (z : MemoryZone) (a : Z) : Prop :=
  redzone z <= a <= top z.

(** The boundary [default_handler] computes for a fault address. *)
Definition new_boundary (P : platform) (G : globals) (fault_addr : Z) : Z :=
  round_up P (wrap P (fault_addr + sizeof_Word P)) (unit G).

(** Events issued only when [memdebug] is set. *)
Definition debug (G : globals) (es : list event) : list event :=
  if memdebug G then es else [].

(** The protection change [default_handler] asks for. *)
Definition unprotect_call (P : platform) (zone : MemoryZone) (new_zone : Z) : event :=
  E_mprotect (redzone zone) (wrap P (new_zone - redzone zone))
             (Z.lor (PROT_READ P) (PROT_WRITE P)).

(** The answer of the operating system to that call when [default_handler]
    is entered in world [w]. *)
Definition unprotect_result (P : platform) (K : os) (G : globals)
    (zone : MemoryZone) (new_zone : Z) (w : world) : Z :=
  mprotect_result K
    (trace w ++ debug G [E_fprintf_stderr
        (msg_trying P zone new_zone (wrap P (new_zone - redzone zone)))])
    (redzone zone) (wrap P (new_zone - redzone zone))
    (Z.lor (PROT_READ P) (PROT_WRITE P)).

(** The router's debugging output while it walks over [zs]. *)
Definition checking (P : platform) (zs : list MemoryZone) : list event :=
  map (fun z => E_fprintf_stderr (msg_checking P z)) zs.

(** The maximal runs of consecutive identical labels, in order, each with
    its length: the dump as the specification words it. *)
Fixpoint maximal_runs (labels : list string) : list (string * Z) :=
  match labels with
  | [] => []
  | x :: rest =>
      match maximal_runs rest with
      | (y, c) :: rs =>
          if (x =? y)%string then (x, c + 1) :: rs else (x, 1) :: (y, c) :: rs
      | [] => [(x, 1)]
      end
  end.

(** The labels a list of runs stands for. *)
Definition expand (rs : list (string * Z)) : list string :=
  flat_map (fun r => repeat (fst r) (Z.to_nat (snd r))) rs.

(** No two neighbouring runs carry the same label. *)
Fixpoint neighbours_differ (rs : list (string * Z)) : Prop :=
  match rs with
  | r :: (r' :: _) as rest => fst r <> fst r' /\ neighbours_differ rest
  | _ => True
  end.

(** How many entries at the head of [l] equal [x]. *)
Fixpoint leading (x : string) (l : list string) : nat :=
  match l with
  | y :: l' => if (y =? x)%string then S (leading x l') else O
  | [] => O
  end.

(** What [print_dump_stack] is to write, by the specification. *)
Definition dump_output (B : build) (G : globals) : list event :=
  if MR_LOWLEVEL_DEBUG B then
    [E_write STDERR dump_header]
      ++ map (fun r => E_write STDERR (dump_line (fst r) (snd r)))
             (maximal_runs (dumpstack G))
      ++ [E_write STDERR dump_trailer]
  else [E_write STDERR dump_hint].

(** Two adjacent zones that share the boundary address 0x3000; the lower
    one is bound to the handler that refuses. *)
Definition lower_zone : MemoryZone :=
  {| name := "detstack"; id := 0; min := 4096; top := 12288; hardmax := 12288;
     redzone := 12032; handler := null_handler_ptr |}.

Definition upper_zone : MemoryZone :=
  {| name := "nondstack"; id := 0; min := 12288; top := 20480; hardmax := 36864;
     redzone := 12288; handler := default_handler_ptr |}.

(** The zone of the scenarios when its accessible part has grown so that a
    fault one word below the ceiling 0x9000 is in the redzone. *)
Definition detstack_near_ceiling : MemoryZone :=
  {| name := "detstack"; id := 0; min := 4096; top := 36864; hardmax := 36864;
     redzone := 32768; handler := default_handler_ptr |}.

(** The chain of the specification's zone invariant. *)
Definition chain (z : MemoryZone) : Prop :=
  min z <= redzone z /\ redzone z <= top z /\ top z <= hardmax z.

(** What the handlers keep of it. *)
Definition bounded (z : MemoryZone) : Prop :=
  min z <= redzone z /\ redzone z <= hardmax z /\ top z <= hardmax z.

(** The address arithmetic of [default_handler] does not wrap around for a
    fault at [a]: the fault address plus a word, rounded up to the alignment
    unit, is still an address. *)
Definition no_wrap (P : platform) (G : globals) (a : Z) : Prop :=
  0 <= a /\ ceiling_multiple (a + sizeof_Word P) (unit G) < 2 ^ ptr_bits P.

(** A zone none of whose redzone addresses makes that arithmetic wrap. *)
Definition placed (P : platform) (G : globals) (z : MemoryZone) : Prop :=
  0 <= redzone z
  /\ ceiling_multiple (top z + sizeof_Word P) (unit G) < 2 ^ ptr_bits P.

(** The alignment unit and the word size are positive. *)
Definition sane (P : platform) (G : globals) : Prop :=
  0 < unit G /\ 0 < sizeof_Word P.

(** [z'] is [z] with at most its redzone moved, and moved upwards only, to
    no more than [hardmax]. *)
Definition grown (z z' : MemoryZone) : Prop :=
  z' = set_redzone z (redzone z')
  /\ redzone z <= redzone z'
  /\ (redzone z' = redzone z \/ redzone z' <= hardmax z).

(** How the list of used zones may change over an operation. *)
Definition zones_evolve (P : platform) (G : globals) (zs zs' : list MemoryZone) : Prop :=
  Forall2 (fun z z' => placed P G z -> grown z z') zs zs'.

(** ** The operations of the subsystem *)

(** The entry points of the file with their arguments.  The two zone
    handlers are exported: they can be called on any used zone, given here by
    its position in the list. *)
Inductive operation :=
| op_setup_signal
| op_complex_sighandler (sig : Z) (context : sigcontext)
| op_complex_bushandler (sig : Z) (info : option siginfo_t) (context : sigcontext)
| op_complex_segvhandler (sig : Z) (info : option siginfo_t) (context : sigcontext)
| op_simple_sighandler (sig : Z)
| op_try_munprotect (addr : Z) (context : sigcontext)
| op_default_handler (i : nat) (fault_addr : Z) (context : sigcontext)
| op_null_handler (i : nat) (fault_addr : Z) (context : sigcontext)
| op_fatal_abort (context : sigcontext) (main_msg : string) (dump : bool)
| op_print_dump_stack.

(** [zs] with [z'] at position [i]. *)
Fixpoint store_zone (i : nat) (z' : MemoryZone) (zs : list MemoryZone)
  : list MemoryZone :=
  match zs, i with
  | [], _ => []
  | _ :: rest, O => z' :: rest
  | z :: rest, S i' => z :: store_zone i' z' rest
  end.

(** A handler called on the [i]-th used zone, which it updates in place. *)
Definition on_zone (i : nat)
    (h : MemoryZone -> M (bool * MemoryZone)) : M void :=
  zs <- get_used_memory_zones;;
  match nth_error zs i with
  | Some z => '(_, z') <- h z;; put_used_memory_zones (store_zone i z' zs)
  | None => ret tt
  end.

Definition run (P : platform) (B : build) (K : os) (G : globals)
    (op : operation) : M void :=
  match op with
  | op_setup_signal => setup_signal P B K
  | op_complex_sighandler sig context => complex_sighandler P B K G sig context
  | op_complex_bushandler sig info context =>
      complex_bushandler P B G sig info context
  | op_complex_segvhandler sig info context =>
      complex_segvhandler P B K G sig info context
  | op_simple_sighandler sig => simple_sighandler P B G sig
  | op_try_munprotect addr context =>
      _ <- try_munprotect P B K G addr context;; ret tt
  | op_default_handler i fault_addr context =>
      on_zone i (fun z => default_handler P B K G fault_addr z context)
  | op_null_handler i fault_addr context =>
      on_zone i (fun z => null_handler fault_addr z context)
  | op_fatal_abort context main_msg dump =>
      fatal_abort P B G context main_msg dump
  | op_print_dump_stack => print_dump_stack B G
  end.

(** The operations that can reach [default_handler]. *)
Definition reaches_default_handler (op : operation) : bool :=
  match op with
  | op_complex_sighandler _ _ | op_complex_segvhandler _ _ _
  | op_try_munprotect _ _ | op_default_handler _ _ _ => true
  | _ => false
  end.

(** The router calls a handler only with an address it has matched against
    the zone.  A direct call of [default_handler] is admissible when the
    address is not below the zone's redzone and the address arithmetic does
    not wrap. *)
Definition admissible (P : platform) (G : globals) (op : operation) (w : world)
  : Prop :=
  match op with
  | op_default_handler i fault_addr _ =>
      exists z, nth_error (used_memory_zones w) i = Some z
                /\ redzone z <= fault_addr /\ no_wrap P G fault_addr
  | _ => True
  end.

(** The worlds the subsystem can be in, from [w0] on: the world after any
    admissible operation, whether the operation returns or ends the process. *)
Inductive reachable (P : platform) (B : build) (K : os) (G : globals)
    (w0 : world) : world -> Prop :=
| reachable_start : reachable P B K G w0 w0
| reachable_step w op :
    reachable P B K G w0 w ->
    admissible P G op w ->
    reachable P B K G w0 (world_of (run P B K G op w)).

(** A computation that leaves the list of used zones alone. *)
Definition keeps_zones {A} (m : M A) : Prop :=
  forall w, used_memory_zones (world_of (m w)) = used_memory_zones w.

(** A computation over which the used zones evolve. *)
Definition advances (P : platform) (G : globals) {A} (m : M A) : Prop :=
  forall w, zones_evolve P G (used_memory_zones w) (used_memory_zones (world_of (m w))).

(** The text an event puts on a stream, if it is one that writes text. *)
Definition text_of (e : event) : option string :=
  match e with
  | E_write _ buf => Some buf
  | E_fprintf_stderr text => Some text
  | E_perror s => Some s
  | _ => None
  end.

(** The event writes a text in which [needle] occurs. *)
Definition mentions (needle : string) (e : event) : bool :=
  match text_of e with
  | Some text =>
      match index 0 needle text with Some _ => true | None => false end
  | None => false
  end.

(** The context of a fault at the ceiling 0x9000 of the scenario zone. *)
Definition ceiling_context : sigcontext :=
  {| cr2 := 36864; pc_at_signal := 134513000 |}.

(** A computation that, when it ends the process, ends it with status 1. *)
Definition exits_1 {A} (m : M A) : Prop :=
  forall w s, exit_status (m w) = Some s -> s = 1.

(** A computation that always ends the process, with status 1. *)
Definition aborts {A} (m : M A) : Prop :=
  forall w, exit_status (m w) = Some 1.

(** Installing the handlers fails: one of the calls [setup_signal] makes, in
    the order it makes them, is answered with an error. *)
Definition setup_failure (P : platform) (B : build) (K : os) (w : world) : Prop :=
  let t := trace w in
  if HAVE_SIGCONTEXT_STRUCT B then
    signal_is_SIG_ERR K t (SIGBUS P) = true
    \/ signal_is_SIG_ERR K (t ++ [E_signal (SIGBUS P) complex_sighandler_ptr])
         (SIGSEGV P) = true
  else if HAVE_SIGINFO_T B then
    let sa_flags := Z.lor (SA_SIGINFO P) (SA_RESTART P) in
    sigemptyset_result K t <> 0
    \/ sigaction_result K (t ++ [E_sigemptyset]) (SIGBUS P) <> 0
    \/ sigaction_result K
         (t ++ [E_sigemptyset; E_sigaction (SIGBUS P) sa_flags complex_bushandler_ptr])
         (SIGSEGV P) <> 0
  else
    signal_is_SIG_ERR K t (SIGBUS P) = true
    \/ signal_is_SIG_ERR K (t ++ [E_signal (SIGBUS P) simple_sighandler_ptr])
         (SIGSEGV P) = true.

(** The operation is the delivery of a segmentation violation at address [a]
    to a handler that asks the router. *)
Inductive segv_delivery (P : platform) : operation -> Z -> Prop :=
| delivery_sigcontext context :
    segv_delivery P (op_complex_sighandler (SIGSEGV P) context) (cr2 context)
| delivery_siginfo info context :
    si_signo info = SIGSEGV P ->
    segv_delivery P (op_complex_segvhandler (SIGSEGV P) (Some info) context)
      (si_addr info).

(** The fault at [a] belongs to no used zone. *)
Definition foreign_fault (w : world) (a : Z) : Prop :=
  Forall (fun z => ~ in_redzone z a) (used_memory_zones w).

(** The first used zone that holds [a] is [z]. *)
Definition owner (w : world) (a : Z) (z : MemoryZone) : Prop :=
  exists pre post,
    used_memory_zones w = pre ++ z :: post
    /\ Forall (fun z' => ~ in_redzone z' a) pre
    /\ in_redzone z a.

(** A segmentation violation at an address far from every zone. *)
Definition stray_fault : siginfo_t :=
  {| si_signo := 11; si_code := 1; si_addr := 64 |}.

(** A segmentation violation in the redzone of [lower_zone]. *)
Definition refused_fault : siginfo_t :=
  {| si_signo := 11; si_code := 2; si_addr := 12100 |}.

(** A computation over which the list of used zones changes within [R]. *)
Definition steps_within (R : list MemoryZone -> list MemoryZone -> Prop)
    {A} (m : M A) : Prop :=
  forall w, R (used_memory_zones w) (used_memory_zones (world_of (m w))).

(** The operation is a direct call of [default_handler]. *)
Definition is_direct_default_handler (op : operation) : bool :=
  match op with op_default_handler _ _ _ => true | _ => false end.

(** The alignment unit is a power of two that divides the size of the
    address space, as [round_up] requires of its second argument. *)
Definition unit_is_power_of_2 (P : platform) (G : globals) : Prop :=
  exists k, 0 <= k <= ptr_bits P /\ unit G = 2 ^ k.

(** A zone bound to [null_handler] is left as it is, and no zone is bound to
    another handler. *)
Definition refusal_kept (z z' : MemoryZone) : Prop :=
  handler z' = handler z /\ (handler z = null_handler_ptr -> z' = z).

(** A build with the legacy fault context but without [mprotect]. *)
Definition sigcontext_stub_build : build :=
  {| HAVE_MPROTECT := false; HAVE_SIGINFO := true;
     HAVE_SIGCONTEXT_STRUCT := true; HAVE_SIGINFO_T := false;
     PC_ACCESS := false; MR_LOWLEVEL_DEBUG := false |}.

(** A build with the legacy fault context and every capability. *)
Definition sigcontext_build : build :=
  {| HAVE_MPROTECT := true; HAVE_SIGINFO := true;
     HAVE_SIGCONTEXT_STRUCT := true; HAVE_SIGINFO_T := false;
     PC_ACCESS := true; MR_LOWLEVEL_DEBUG := false |}.

(** A build with neither fault context. *)
Definition minimal_build : build :=
  {| HAVE_MPROTECT := true; HAVE_SIGINFO := false;
     HAVE_SIGCONTEXT_STRUCT := false; HAVE_SIGINFO_T := false;
     PC_ACCESS := false; MR_LOWLEVEL_DEBUG := false |}.

(** The event is a single raw write to the error stream, or the request for
    the raw trace report on it. *)
Definition raw_write (e : event) : Prop :=
  match e with
  | E_write fd _ => fd = STDERR
  | E_MR_trace_report_raw fd => fd = STDERR
  | _ => False
  end.

(** What [explain_segv] prints for a fault described by [info]. *)
Definition segv_cause (P : platform) (code : Z) : string :=
  if code =? SEGV_MAPERR P then "address not mapped to object" +++ nl
  else if code =? SEGV_ACCERR P then "bad permissions for mapped object" +++ nl
  else "unknown" +++ nl.

Definition address_line (P : platform) (a : Z) : string :=
  "address involved: " +++ fmt_p P a +++ nl.

Definition segv_explanation (P : platform) (B : build) (info : siginfo_t)
    (context : sigcontext) : list event :=
  [E_fflush_stdout;
   E_fprintf_stderr (nl +++ "*** Mercury runtime: ");
   E_fprintf_stderr ("caught segmentation violation ***" +++ nl)]
  ++ (if 0 <? si_code info then
        [E_fprintf_stderr "cause: ";
         E_fprintf_stderr (segv_cause P (si_code info));
         E_fprintf_stderr (explain_context P B context);
         E_fprintf_stderr (address_line P (si_addr info))]
      else []).

(** The end of every report: the dump, the previous locations, the last
    line. *)
Definition final_report (B : build) (G : globals) : list event :=
  dump_output B G
  ++ [E_dump_prev_locations;
      E_fprintf_stderr ("exiting from signal handler" +++ nl)].

(** A segmentation violation in the redzone of the scenario zone. *)
Definition growable_fault : siginfo_t :=
  {| si_signo := 11; si_code := 2; si_addr := 12112 |}.

(** The banner of [complex_sighandler] for a signal other than a segmentation
    violation. *)
Definition other_signal_banner (P : platform) (sig : Z) : string :=
  if sig =? SIGBUS P then nl +++ "*** Mercury runtime: caught bus error ***" +++ nl
  else nl +++ "*** Mercury runtime: caught unknown signal "
          +++ fmt_d sig +++ " ***" +++ nl.

(** The delivery does not have the shape the handler for [expected] asks
    for: another signal number, no [siginfo_t], or a [siginfo_t] of another
    signal. *)
Definition strange_delivery (expected sig : Z) (info : option siginfo_t) : Prop :=
  sig <> expected
  \/ match info with
     | None => True
     | Some info' => si_signo info' <> expected
     end.

(** The calls [setup_signal] makes when all of them succeed. *)
Definition setup_calls (P : platform) (B : build) : list event :=
  if HAVE_SIGCONTEXT_STRUCT B then
    [E_signal (SIGBUS P) complex_sighandler_ptr;
     E_signal (SIGSEGV P) complex_sighandler_ptr]
  else if HAVE_SIGINFO_T B then
    [E_sigemptyset;
     E_sigaction (SIGBUS P) (Z.lor (SA_SIGINFO P) (SA_RESTART P))
       complex_bushandler_ptr;
     E_sigaction (SIGSEGV P) (Z.lor (SA_SIGINFO P) (SA_RESTART P))
       complex_segvhandler_ptr]
  else
    [E_signal (SIGBUS P) simple_sighandler_ptr;
     E_signal (SIGSEGV P) simple_sighandler_ptr].

(** The first call [setup_signal] makes is answered with an error. *)
Definition first_setup_call_fails (P : platform) (B : build) (K : os) (w : world)
  : Prop :=
  if HAVE_SIGCONTEXT_STRUCT B then signal_is_SIG_ERR K (trace w) (SIGBUS P) = true
  else if HAVE_SIGINFO_T B then sigemptyset_result K (trace w) <> 0
  else signal_is_SIG_ERR K (trace w) (SIGBUS P) = true.

(** The event installs a handler for signal [sig]. *)
Definition installs (sig : Z) (e : event) : Prop :=
  match e with
  | E_signal sig' _ => sig' = sig
  | E_sigaction sig' _ _ => sig' = sig
  | _ => False
  end.

(** No two consecutive labels are the same. *)
Fixpoint no_repeats (labels : list string) : Prop :=
  match labels with
  | x :: (y :: _) as rest => x <> y /\ no_repeats rest
  | _ => True
  end.

(** [z'] is [z] but for its redzone. *)
Definition same_but_redzone (z z' : MemoryZone) : Prop :=
  z' = set_redzone z (redzone z').

(** The operation is the run of one of the signal handlers. *)
Definition is_signal_handler (op : operation) : bool :=
  match op with
  | op_complex_sighandler _ _ | op_complex_bushandler _ _ _
  | op_complex_segvhandler _ _ _ | op_simple_sighandler _ => true
  | _ => false
  end.

(** The worlds the operations lead to from [w0] when nothing is asked of
    their arguments. *)
Inductive reachable_by_any (P : platform) (B : build) (K : os) (G : globals)
    (w0 : world) : world -> Prop :=
| reachable_by_any_start : reachable_by_any P B K G w0 w0
| reachable_by_any_step w op :
    reachable_by_any P B K G w0 w ->
    reachable_by_any P B K G w0 (world_of (run P B K G op w)).


(** * Properties *)

(** ** The monad *)

Lemma log_nil w : log w [] = w.
Proof. destruct w; unfold log; simpl; now rewrite app_nil_r. Qed.

Lemma log_log w es es' : log (log w es) es' = log w (es ++ es').
Proof. unfold log; simpl; now rewrite app_assoc. Qed.

Lemma bind_Ret {A C} (m : M A) (k : A -> M C) w a w' :
  m w = Ret a w' -> bind m k w = k a w'.
Proof. unfold bind; now intros ->. Qed.

Lemma emit_run e w : emit e w = Ret tt (log w [e]).
Proof. reflexivity. Qed.

(** Run the straight-line part of a computation: unfold the monad and the
    calls that only add to the trace, and gather what was added. *)
Ltac exec :=
  cbv beta iota zeta delta
    [bind ret exit when emit fprintf_stderr write perror fflush_stdout
     mprotect get_trace get_used_memory_zones put_used_memory_zones debug];
  rewrite ?log_log; cbn [app].

(** ** Strings *)



(** ** Address arithmetic *)

Lemma ceiling_multiple_bounds amount align :
  0 < align ->
  amount <= ceiling_multiple amount align < amount + align.
Proof.
  intros Halign. unfold ceiling_multiple.
  pose proof (Z.div_mod (amount + align - 1) align ltac:(lia)) as Hdm.
  pose proof (Z.mod_pos_bound (amount + align - 1) align Halign) as Hmod.
  lia.
Qed.

Lemma ceiling_multiple_aligned amount align :
  (ceiling_multiple amount align) mod align = 0.
Proof.
  unfold ceiling_multiple. destruct (Z.eq_dec align 0) as [->|Hnz].
  - now rewrite Z.mul_0_r.
  - now apply Z.mod_mul.
Qed.

(** No multiple of [align] lies between [amount] and its rounding. *)
Lemma ceiling_multiple_least amount align k :
  0 < align -> amount <= k * align -> ceiling_multiple amount align <= k * align.
Proof.
  intros Halign Hk. unfold ceiling_multiple.
  apply Z.mul_le_mono_nonneg_r; [lia|].
  apply Z.lt_succ_r. apply Z.div_lt_upper_bound; [assumption|]. nia.
Qed.

Lemma ceiling_multiple_monotone a b align :
  0 < align -> a <= b -> ceiling_multiple a align <= ceiling_multiple b align.
Proof.
  intros Halign Hab. unfold ceiling_multiple.
  apply Z.mul_le_mono_nonneg_r; [lia|].
  apply Z.div_le_mono; lia.
Qed.

(** Without wrap-around the boundary is the fault address plus a word,
    rounded up to a multiple of the unit. *)
Lemma new_boundary_exact P G a :
  sane P G -> no_wrap P G a ->
  new_boundary P G a = ceiling_multiple (a + sizeof_Word P) (unit G).
Proof.
  intros [Hunit Hword] [Ha Hend]. unfold new_boundary, round_up, wrap.
  rewrite (Z.mod_small (a + sizeof_Word P)).
  - pose proof (ceiling_multiple_bounds (a + sizeof_Word P) (unit G) Hunit).
    apply Z.mod_small. lia.
  - pose proof (ceiling_multiple_bounds (a + sizeof_Word P) (unit G) Hunit). lia.
Qed.

Lemma new_boundary_above P G a :
  sane P G -> no_wrap P G a ->
  a + sizeof_Word P <= new_boundary P G a < a + sizeof_Word P + unit G.
Proof.
  intros Hsane Hnw. rewrite new_boundary_exact by assumption.
  apply ceiling_multiple_bounds. apply Hsane.
Qed.

Lemma placed_no_wrap P G z a :
  sane P G -> placed P G z -> in_redzone z a -> no_wrap P G a.
Proof.
  intros [Hunit _] [Hred Htop] [Hlo Hhi]. split; [lia|].
  eapply Z.le_lt_trans; [|exact Htop].
  apply ceiling_multiple_monotone; lia.
Qed.

(** ** Maximal runs *)

Lemma maximal_runs_cons x l :
  maximal_runs (x :: l)
  = (x, 1 + Z.of_nat (leading x l)) :: maximal_runs (skipn (leading x l) l).
Proof.
  revert x; induction l as [|y l IH]; intro x; [reflexivity|].
  change (maximal_runs (x :: y :: l))
    with (match maximal_runs (y :: l) with
          | (y', c) :: rs =>
              if (x =? y')%string then (x, c + 1) :: rs else (x, 1) :: (y', c) :: rs
          | [] => [(x, 1)]
          end).
  rewrite (IH y).
  cbn [leading]. rewrite (String.eqb_sym y x).
  destruct (String.eqb_spec x y) as [->|Hne].
  - cbn [skipn]. f_equal. f_equal. lia.
  - cbn [skipn]. rewrite (IH y). reflexivity.
Qed.

Lemma leading_repeat x l :
  l = repeat x (leading x l) ++ skipn (leading x l) l.
Proof.
  induction l as [|y l IH]; [reflexivity|].
  cbn [leading]. destruct (String.eqb_spec y x) as [->|Hne]; [|reflexivity].
  cbn [repeat skipn app]. now rewrite <- IH.
Qed.

Lemma leading_le x l : (leading x l <= List.length l)%nat.
Proof.
  induction l as [|y l IH]; cbn; [lia|].
  destruct (y =? x)%string; cbn; lia.
Qed.

Lemma leading_stop x l :
  match skipn (leading x l) l with
  | y :: _ => y <> x
  | [] => True
  end.
Proof.
  induction l as [|y l IH]; cbn [leading]; [exact I|].
  destruct (String.eqb_spec y x) as [->|Hne]; cbn [skipn]; auto.
Qed.

(** The runs found are exactly the labels, regrouped. *)
Lemma expand_maximal_runs l : expand (maximal_runs l) = l.
Proof.
  remember (List.length l) as n eqn:Hn.
  revert l Hn; induction n as [n IH] using lt_wf_ind; intros l Hn.
  destruct l as [|x l]; [reflexivity|].
  rewrite maximal_runs_cons. unfold expand; cbn [flat_map fst snd].
  fold (expand (maximal_runs (skipn (leading x l) l))).
  rewrite (IH (List.length (skipn (leading x l) l))); [| |reflexivity].
  - replace (Z.to_nat (1 + Z.of_nat (leading x l))) with (S (leading x l)) by lia.
    cbn [repeat app]. now rewrite <- leading_repeat.
  - rewrite length_skipn. subst n. cbn [List.length]. lia.
Qed.

(** Every run has at least one label. *)
Lemma maximal_runs_positive l : Forall (fun r => 1 <= snd r) (maximal_runs l).
Proof.
  remember (List.length l) as n eqn:Hn.
  revert l Hn; induction n as [n IH] using lt_wf_ind; intros l Hn.
  destruct l as [|x l]; [constructor|].
  rewrite maximal_runs_cons. constructor; [cbv beta; cbn [snd]; lia|].
  apply (IH (List.length (skipn (leading x l) l))); [|reflexivity].
  rewrite length_skipn. subst n. cbn [List.length]. lia.
Qed.

(** Every run is maximal: the next run starts with another label. *)
Lemma maximal_runs_maximal l : neighbours_differ (maximal_runs l).
Proof.
  remember (List.length l) as n eqn:Hn.
  revert l Hn; induction n as [n IH] using lt_wf_ind; intros l Hn.
  destruct l as [|x l]; [exact I|].
  rewrite maximal_runs_cons.
  assert (Hrest : neighbours_differ (maximal_runs (skipn (leading x l) l))).
  { apply (IH (List.length (skipn (leading x l) l))); [|reflexivity].
    rewrite length_skipn. subst n. cbn [List.length]. lia. }
  pose proof (leading_stop x l) as Hstop.
  destruct (skipn (leading x l) l) as [|y l'] eqn:E; [exact I|].
  rewrite maximal_runs_cons in *. cbn [neighbours_differ fst].
  split; [congruence|exact Hrest].
Qed.

(** ** print_dump_stack writes the maximal runs *)

Section Dump.

Variable B : build.
Variable G : globals.

Lemma skipn_nth {A} (d : A) (l : list A) (j : nat) :
  (j < List.length l)%nat -> skipn j l = nth j l d :: skipn (S j) l.
Proof.
  revert j; induction l as [|x l IH]; intros j Hj; cbn in Hj; [lia|].
  destruct j as [|j]; [reflexivity|].
  cbn [skipn nth]. apply IH. lia.
Qed.

(** The inner loop stops exactly at the end of the run. *)
Lemma dump_run_spec fuel start j count :
  (List.length (dumpstack G) - j <= fuel)%nat ->
  let k := leading (dump_entry G start) (skipn j (dumpstack G)) in
  dump_run G fuel start (Z.of_nat j) count
  = (Z.of_nat (j + k), count + Z.of_nat k).
Proof.
  revert j count; induction fuel as [|fuel IH]; intros j count Hfuel k; subst k.
  - rewrite skipn_all2 by lia. cbn. f_equal; [f_equal|]; lia.
  - cbn [dump_run]. unfold dumpindex.
    destruct (Z.ltb_spec (Z.of_nat j) (Z.of_nat (List.length (dumpstack G)))) as [Hlt|Hge].
    + rewrite (skipn_nth "" (dumpstack G) j) by lia.
      cbn [leading andb]. unfold dump_entry at 1. rewrite Nat2Z.id.
      destruct (nth j (dumpstack G) "" =? dump_entry G start)%string.
      * replace (Z.of_nat j + 1) with (Z.of_nat (S j)) by lia.
        rewrite IH by lia. f_equal; [f_equal|]; lia.
      * f_equal; [f_equal|]; lia.
    + rewrite skipn_all2 by lia. cbn. f_equal; [f_equal|]; lia.
Qed.

(** The outer loop writes one line per maximal run of what is left. *)
Lemma dump_loop_spec fuel i w :
  (List.length (dumpstack G) - i <= fuel)%nat ->
  dump_loop G fuel (Z.of_nat i) w
  = Ret tt (log w (map (fun r => E_write STDERR (dump_line (fst r) (snd r)))
                       (maximal_runs (skipn i (dumpstack G))))).
Proof.
  revert i w; induction fuel as [|fuel IH]; intros i w Hfuel.
  - rewrite skipn_all2 by lia. cbn. now rewrite log_nil.
  - cbn [dump_loop]. unfold dumpindex.
    destruct (Z.ltb_spec (Z.of_nat i) (Z.of_nat (List.length (dumpstack G)))) as [Hlt|Hge].
    + replace (Z.of_nat i + 1) with (Z.of_nat (S i)) by lia.
      rewrite dump_run_spec by lia.
      rewrite (skipn_nth "" (dumpstack G) i) by lia.
      rewrite maximal_runs_cons. cbn [map fst snd].
      unfold write. rewrite (bind_Ret _ _ _ _ _ (emit_run _ _)).
      rewrite IH.
      * rewrite log_log. unfold dump_entry. rewrite Nat2Z.id.
        rewrite skipn_skipn.
        replace (leading (nth i (dumpstack G) "") (skipn (S i) (dumpstack G)) + S i)%nat
          with (S i + leading (nth i (dumpstack G) "") (skipn (S i) (dumpstack G)))%nat
          by lia.
        reflexivity.
      * pose proof (leading_le (dump_entry G (Z.of_nat i)) (skipn (S i) (dumpstack G))).
        lia.
    + rewrite skipn_all2 by lia. cbn. now rewrite log_nil.
Qed.

Lemma print_dump_stack_spec w :
  print_dump_stack B G w = Ret tt (log w (dump_output B G)).
Proof.
  unfold print_dump_stack, dump_output.
  destruct (MR_LOWLEVEL_DEBUG B); [|reflexivity].
  unfold write. rewrite (bind_Ret _ _ _ _ _ (emit_run _ _)).
  unfold dumpindex. rewrite Nat2Z.id.
  rewrite (bind_Ret _ _ _ _ _ (dump_loop_spec _ 0%nat _ (Nat.le_sub_l _ _))).
  rewrite emit_run, !log_log. reflexivity.
Qed.

End Dump.

(** ** The abort path and the default handler, case by case *)

Section Default_handler.

Variable P : platform.
Variable B : build.
Variable K : os.
Variable G : globals.

(** What [fatal_abort] does, whatever its arguments. *)
Lemma fatal_abort_spec context main_msg dump w :
  fatal_abort P B G context main_msg dump w
  = Exit 1 (log w ([E_write STDERR main_msg;
                    E_write STDERR (explain_context P B context);
                    E_MR_trace_report_raw STDERR]
                   ++ if dump then dump_output B G else [])).
Proof.
  unfold fatal_abort. destruct dump; exec.
  - rewrite print_dump_stack_spec. now rewrite !log_log.
  - reflexivity.
Qed.

Lemma default_handler_grows fault_addr zone context w :
  full_build B = true ->
  new_boundary P G fault_addr <= hardmax zone ->
  0 <= unprotect_result P K G zone (new_boundary P G fault_addr) w ->
  let new_zone := new_boundary P G fault_addr in
  default_handler P B K G fault_addr zone context w
  = Ret (true, set_redzone zone new_zone)
        (log w (debug G [E_fprintf_stderr
                   (msg_trying P zone new_zone (wrap P (new_zone - redzone zone)))]
                ++ [unprotect_call P zone new_zone]
                ++ debug G [E_fprintf_stderr
                     (msg_successful P (set_redzone zone new_zone))])).
Proof.
  intros Hfull Hle Hok new_zone. unfold default_handler. rewrite Hfull.
  fold (new_boundary P G fault_addr). fold new_zone.
  destruct (Z.leb_spec new_zone (hardmax zone)) as [_|Hgt]; [|lia].
  unfold unprotect_result, debug in Hok. fold new_zone in Hok.
  unfold unprotect_call.
  destruct (memdebug G) eqn:Hdbg; exec; rewrite ?Hdbg; cbn [trace log app];
    rewrite ?app_nil_r in *;
    match goal with |- context [?r <? 0] => destruct (Z.ltb_spec r 0) end; try lia;
    rewrite ?log_log; reflexivity.
Qed.

Lemma default_handler_refused fault_addr zone context w :
  full_build B = true ->
  new_boundary P G fault_addr <= hardmax zone ->
  unprotect_result P K G zone (new_boundary P G fault_addr) w < 0 ->
  let new_zone := new_boundary P G fault_addr in
  default_handler P B K G fault_addr zone context w
  = Exit 1
      (log w (debug G [E_fprintf_stderr
                 (msg_trying P zone new_zone (wrap P (new_zone - redzone zone)))]
              ++ [unprotect_call P zone new_zone;
                  E_perror (msg_cannot_unprotect zone)])).
Proof.
  intros Hfull Hle Hok new_zone. unfold default_handler. rewrite Hfull.
  fold (new_boundary P G fault_addr). fold new_zone.
  destruct (Z.leb_spec new_zone (hardmax zone)) as [_|Hgt]; [|lia].
  unfold unprotect_result, debug in Hok. fold new_zone in Hok.
  unfold unprotect_call.
  destruct (memdebug G) eqn:Hdbg; exec; rewrite ?Hdbg; cbn [trace log app];
    rewrite ?app_nil_r in *;
    match goal with |- context [?r <? 0] => destruct (Z.ltb_spec r 0) end; try lia;
    rewrite ?log_log; reflexivity.
Qed.

Lemma default_handler_overflows fault_addr zone context w :
  full_build B = true ->
  hardmax zone < new_boundary P G fault_addr ->
  default_handler P B K G fault_addr zone context w
  = Exit 1
      (log w (debug G [E_fprintf_stderr (msg_last_page zone); E_fflush_stdout]
              ++ [E_write STDERR (msg_overflowed zone);
                  E_write STDERR (explain_context P B context);
                  E_MR_trace_report_raw STDERR]
              ++ dump_output B G)).
Proof.
  intros Hfull Hgt. unfold default_handler. rewrite Hfull.
  fold (new_boundary P G fault_addr).
  destruct (Z.leb_spec (new_boundary P G fault_addr) (hardmax zone)) as [Hle|_]; [lia|].
  destruct (memdebug G) eqn:Hdbg; exec; rewrite ?Hdbg;
    rewrite fatal_abort_spec, ?log_log; reflexivity.
Qed.

(** In a build without the capability the handler is a stub. *)
Lemma default_handler_stub fault_addr zone context w :
  full_build B = false ->
  default_handler P B K G fault_addr zone context w = Ret (false, zone) w.
Proof. intros Hstub. unfold default_handler. now rewrite Hstub. Qed.

End Default_handler.

(** ** The router, case by case *)

Section Router.

Variable P : platform.
Variable B : build.
Variable K : os.
Variable G : globals.

Lemma in_redzone_test z a :
  (redzone z <=? a) && (a <=? top z) = true <-> in_redzone z a.
Proof. unfold in_redzone. rewrite andb_true_iff, !Z.leb_le. tauto. Qed.

Lemma not_in_redzone_test z a :
  ~ in_redzone z a -> (redzone z <=? a) && (a <=? top z) = false.
Proof.
  intros Hn. destruct ((redzone z <=? a) && (a <=? top z)) eqn:E; [|reflexivity].
  now apply in_redzone_test in E.
Qed.

(** Either no zone holds the address, or there is a first one that does. *)
Lemma first_owner_dec (zs : list MemoryZone) a :
  Forall (fun z => ~ in_redzone z a) zs
  \/ exists pre z post,
       zs = pre ++ z :: post
       /\ Forall (fun z' => ~ in_redzone z' a) pre
       /\ in_redzone z a.
Proof.
  induction zs as [|y zs IH]; [left; constructor|].
  destruct ((redzone y <=? a) && (a <=? top y)) eqn:Htest.
  - right. exists [], y, zs. apply in_redzone_test in Htest.
    repeat split; [constructor|apply Htest..].
  - assert (Hy : ~ in_redzone y a).
    { intros Hin. apply in_redzone_test in Hin. congruence. }
    destruct IH as [Hnone|(pre & z & post & -> & Hpre & Hz)].
    + left. now constructor.
    + right. exists (y :: pre), z, post. repeat split; [now constructor|apply Hz..].
Qed.

(** No zone holds the address: every zone is looked at, none is changed. *)
Lemma try_munprotect_from_foreign zs a context w :
  Forall (fun z => ~ in_redzone z a) zs ->
  try_munprotect_from P B K G zs a context w
  = Ret (false, zs)
        (log w (debug G (checking P zs ++ [E_fprintf_stderr msg_no_redzone]))).
Proof.
  intros Hzs. revert w. induction Hzs as [|z zs Hz _ IH]; intro w.
  - cbn [try_munprotect_from checking map]. destruct (memdebug G) eqn:Hdbg; exec;
      rewrite ?Hdbg, ?log_nil; reflexivity.
  - cbn [try_munprotect_from]. rewrite (not_in_redzone_test _ _ Hz).
    destruct (memdebug G) eqn:Hdbg; exec; rewrite ?Hdbg in *; rewrite IH;
      unfold debug; rewrite Hdbg, ?log_log, ?log_nil; reflexivity.
Qed.

(** The first zone that holds the address gets its handler called; the
    zones before it are looked at, the zones after it are not. *)
Lemma try_munprotect_from_owner pre z post a context w :
  Forall (fun z' => ~ in_redzone z' a) pre ->
  in_redzone z a ->
  try_munprotect_from P B K G (pre ++ z :: post) a context w
  = match call_handler P B K G (handler z) a z context
            (log w (debug G (checking P (pre ++ [z])
                             ++ [E_fprintf_stderr (msg_in_redzone z)]))) with
    | Ret (r, z') w' => Ret (r, pre ++ z' :: post) w'
    | Exit s w' => Exit s w'
    end.
Proof.
  intros Hpre Hz. revert w. induction Hpre as [|y pre Hy _ IH]; intro w.
  - cbn [app try_munprotect_from checking map].
    rewrite (proj2 (in_redzone_test _ _) Hz).
    destruct (memdebug G) eqn:Hdbg; exec; rewrite ?Hdbg, ?log_nil;
      destruct (call_handler P B K G (handler z) a z context _) as [[r z'] w'|s w'];
      reflexivity.
  - cbn [app try_munprotect_from]. rewrite (not_in_redzone_test _ _ Hy).
    destruct (memdebug G) eqn:Hdbg; exec; rewrite ?Hdbg in *; rewrite IH;
      unfold debug; rewrite Hdbg, ?log_log, ?log_nil; cbn [checking map app];
      destruct (call_handler P B K G (handler z) a z context _) as [[r z'] w'|s w'];
      reflexivity.
Qed.

(** The world the router leaves when the handler has returned. *)
Lemma try_munprotect_foreign a context w :
  full_build B = true ->
  Forall (fun z => ~ in_redzone z a) (used_memory_zones w) ->
  try_munprotect P B K G a context w
  = Ret false
        (log w (debug G ([E_fprintf_stderr (msg_caught P a)]
                         ++ checking P (used_memory_zones w)
                         ++ [E_fprintf_stderr msg_no_redzone]))).
Proof.
  intros Hfull Hzs. unfold try_munprotect. rewrite Hfull.
  destruct w as [zs t]; cbn [used_memory_zones] in *.
  destruct (memdebug G) eqn:Hdbg; exec; rewrite ?Hdbg;
    rewrite (try_munprotect_from_foreign _ _ _ _ Hzs);
    unfold debug; rewrite Hdbg, ?log_log, ?log_nil; cbn [app];
    unfold log; cbn; rewrite ?app_nil_r; reflexivity.
Qed.

Lemma try_munprotect_owner pre z post a context w :
  full_build B = true ->
  used_memory_zones w = pre ++ z :: post ->
  Forall (fun z' => ~ in_redzone z' a) pre ->
  in_redzone z a ->
  try_munprotect P B K G a context w
  = match call_handler P B K G (handler z) a z context
            (log w (debug G ([E_fprintf_stderr (msg_caught P a)]
                             ++ checking P (pre ++ [z])
                             ++ [E_fprintf_stderr (msg_in_redzone z)]))) with
    | Ret (r, z') w' =>
        Ret r {| used_memory_zones := pre ++ z' :: post; trace := trace w' |}
    | Exit s w' => Exit s w'
    end.
Proof.
  intros Hfull Hw Hpre Hz. unfold try_munprotect. rewrite Hfull.
  destruct (memdebug G) eqn:Hdbg; exec; rewrite ?Hdbg, Hw;
    rewrite (try_munprotect_from_owner _ _ _ _ _ _ Hpre Hz);
    unfold debug; rewrite Hdbg, ?log_log, ?log_nil; cbn [app];
    destruct (call_handler P B K G (handler z) a z context _) as [[r z'] w'|s w'];
    reflexivity.
Qed.

Lemma try_munprotect_stub a context w :
  full_build B = false -> try_munprotect P B K G a context w = Ret false w.
Proof. intros Hstub. unfold try_munprotect. now rewrite Hstub. Qed.

End Router.

(** ** The fault router: first match in list order *)

(** C4.  In the build that has the router, [try_munprotect] walks the used
    zones in list order and hands the fault to the first zone [z] with
    [redzone z <= fault_address <= top z], both bounds included; its result
    is the result of that zone's handler, and the zone is stored back as the
    handler has left it.  When no zone holds the address the result is
    false and no zone is changed. *)
Theorem try_munprotect_first_match P B K G a context w :
  full_build B = true ->
  (forall pre z post,
      used_memory_zones w = pre ++ z :: post ->
      Forall (fun z' => ~ in_redzone z' a) pre ->
      in_redzone z a ->
      try_munprotect P B K G a context w
      = match call_handler P B K G (handler z) a z context
                (log w (debug G ([E_fprintf_stderr (msg_caught P a)]
                                 ++ checking P (pre ++ [z])
                                 ++ [E_fprintf_stderr (msg_in_redzone z)]))) with
        | Ret (r, z') w' =>
            Ret r {| used_memory_zones := pre ++ z' :: post; trace := trace w' |}
        | Exit s w' => Exit s w'
        end)
  /\ (Forall (fun z => ~ in_redzone z a) (used_memory_zones w) ->
      try_munprotect P B K G a context w
      = Ret false
          (log w (debug G ([E_fprintf_stderr (msg_caught P a)]
                           ++ checking P (used_memory_zones w)
                           ++ [E_fprintf_stderr msg_no_redzone])))).
Proof.
  intros Hfull. split.
  - intros pre z post. now apply try_munprotect_owner.
  - now apply try_munprotect_foreign.
Qed.

(** A fault on the shared boundary goes to the zone registered first,
    whichever of the two that is. *)
Lemma try_munprotect_first_match_witness :
  try_munprotect linux_x86 siginfo_build obliging_os (quiet []) 12288 a_context
    (start_world [lower_zone; upper_zone])
  = Ret false (start_world [lower_zone; upper_zone])
  /\ try_munprotect linux_x86 siginfo_build obliging_os (quiet []) 12288 a_context
       (start_world [upper_zone; lower_zone])
     = Ret true {| used_memory_zones := [set_redzone upper_zone 16384; lower_zone];
                   trace := [E_mprotect 12288 4096 3] |}
  /\ try_munprotect linux_x86 siginfo_build obliging_os (quiet []) 64 a_context
       (start_world [lower_zone; upper_zone])
     = Ret false (start_world [lower_zone; upper_zone]).
Proof.
  pose proof (try_munprotect_first_match linux_x86 siginfo_build obliging_os
                (quiet []) 12288 a_context (start_world [lower_zone; upper_zone])
                eq_refl) as [Hfirst _].
  pose proof (try_munprotect_first_match linux_x86 siginfo_build obliging_os
                (quiet []) 12288 a_context (start_world [upper_zone; lower_zone])
                eq_refl) as [Hsecond _].
  pose proof (try_munprotect_first_match linux_x86 siginfo_build obliging_os
                (quiet []) 64 a_context (start_world [lower_zone; upper_zone])
                eq_refl) as [_ Hnone].
  split; [|split].
  - rewrite (Hfirst [] lower_zone [upper_zone] eq_refl (Forall_nil _)).
    + reflexivity.
    + unfold in_redzone; cbn; lia.
  - rewrite (Hsecond [] upper_zone [lower_zone] eq_refl (Forall_nil _)).
    + reflexivity.
    + unfold in_redzone; cbn; lia.
  - rewrite Hnone.
    + reflexivity.
    + repeat constructor; unfold in_redzone; cbn; lia.
Defined.

(** ** The null handler *)

(** C9.  [null_handler] returns false on every input and leaves the zone
    and the world as they are; hence a fault that the router hands to a zone
    bound to [null_handler] is reported unhandled wherever in
    [redzone, top] it lies, in every build. *)
Theorem null_handler_refuses P B K G :
  (forall fault_addr zone context w,
      null_handler fault_addr zone context w = Ret (false, zone) w)
  /\ (forall pre z post a context w,
        used_memory_zones w = pre ++ z :: post ->
        Forall (fun z' => ~ in_redzone z' a) pre ->
        in_redzone z a ->
        handler z = null_handler_ptr ->
        try_munprotect P B K G a context w
        = Ret false
            (log w (if full_build B
                    then debug G ([E_fprintf_stderr (msg_caught P a)]
                                  ++ checking P (pre ++ [z])
                                  ++ [E_fprintf_stderr (msg_in_redzone z)])
                    else []))).
Proof.
  split; [reflexivity|].
  intros pre z post a context w Hw Hpre Hz Hnull.
  destruct (full_build B) eqn:Hfull.
  - rewrite (try_munprotect_owner P B K G pre z post a context w Hfull Hw Hpre Hz).
    rewrite Hnull. cbn [call_handler]. unfold null_handler, ret.
    rewrite <- Hw. reflexivity.
  - rewrite try_munprotect_stub by assumption. now rewrite log_nil.
Qed.

Lemma null_handler_refuses_witness :
  try_munprotect linux_x86 siginfo_build obliging_os (verbose []) 12100 a_context
    (start_world [upper_zone; lower_zone])
  = Ret false
      {| used_memory_zones := [upper_zone; lower_zone];
         trace := [E_fprintf_stderr (msg_caught linux_x86 12100);
                   E_fprintf_stderr (msg_checking linux_x86 upper_zone);
                   E_fprintf_stderr (msg_checking linux_x86 lower_zone);
                   E_fprintf_stderr (msg_in_redzone lower_zone)] |}.
Proof.
  destruct (null_handler_refuses linux_x86 siginfo_build obliging_os (verbose []))
    as [_ Hrouted].
  rewrite (Hrouted [upper_zone] lower_zone [] 12100 a_context
             (start_world [upper_zone; lower_zone]) eq_refl).
  - reflexivity.
  - repeat constructor. unfold in_redzone; cbn; lia.
  - unfold in_redzone; cbn; lia.
  - reflexivity.
Defined.

(** ** The default handler *)

(** C2.  For a fault address in [redzone, top] whose rounded boundary
    [round_up(fault_addr + sizeof(Word), unit)] is not above [hardmax],
    when the protection change succeeds, [default_handler] returns true;
    the zone's redzone is then exactly the rounded boundary and its top (like
    every other field) is as before.  The only call made is the protection
    change of [redzone, boundary).  When the address arithmetic does not wrap,
    the boundary is the least multiple of the unit that is not below the fault
    address plus one word. *)
Theorem default_handler_advances_redzone P B K G fault_addr zone context w :
  full_build B = true ->
  in_redzone zone fault_addr ->
  new_boundary P G fault_addr <= hardmax zone ->
  0 <= unprotect_result P K G zone (new_boundary P G fault_addr) w ->
  let new_zone := new_boundary P G fault_addr in
  exists zone',
    default_handler P B K G fault_addr zone context w
    = Ret (true, zone')
          (log w (debug G [E_fprintf_stderr
                     (msg_trying P zone new_zone (wrap P (new_zone - redzone zone)))]
                  ++ [unprotect_call P zone new_zone]
                  ++ debug G [E_fprintf_stderr (msg_successful P zone')]))
    /\ redzone zone' = new_zone
    /\ top zone' = top zone
    /\ zone' = set_redzone zone new_zone
    /\ (sane P G -> no_wrap P G fault_addr ->
        new_zone = ceiling_multiple (fault_addr + sizeof_Word P) (unit G)
        /\ new_zone mod unit G = 0
        /\ fault_addr + sizeof_Word P <= new_zone
        /\ forall k, fault_addr + sizeof_Word P <= k * unit G ->
                     new_zone <= k * unit G).
Proof.
  intros Hfull _ Hle Hok new_zone. exists (set_redzone zone new_zone).
  split; [now apply default_handler_grows|].
  split; [reflexivity|]. split; [reflexivity|]. split; [reflexivity|].
  intros Hsane Hnw. subst new_zone.
  rewrite (new_boundary_exact P G fault_addr Hsane Hnw).
  split; [reflexivity|]. split; [apply ceiling_multiple_aligned|].
  split.
  - apply ceiling_multiple_bounds, Hsane.
  - intros k Hk. apply ceiling_multiple_least; [apply Hsane|assumption].
Qed.

(** Scenario A: min=0x1000, top=0x3000, hardmax=0x9000, unit 0x1000,
    redzone=0x2F00; a fault at 0x2F50 is handled, the redzone becomes
    0x3000 and top stays 0x3000. *)
Lemma default_handler_advances_redzone_witness :
  default_handler linux_x86 siginfo_build obliging_os (quiet []) 12112 detstack
    a_context (start_world [detstack])
  = Ret (true,
         {| name := "detstack"; id := 0; min := 4096; top := 12288;
            hardmax := 36864; redzone := 12288; handler := default_handler_ptr |})
        {| used_memory_zones := [detstack]; trace := [E_mprotect 12032 256 3] |}.
Proof.
  destruct (default_handler_advances_redzone linux_x86 siginfo_build obliging_os
              (quiet []) 12112 detstack a_context (start_world [detstack]))
    as [zone' [Hrun [_ [_ [Hzone' _]]]]].
  - reflexivity.
  - unfold in_redzone; cbn; lia.
  - vm_compute; discriminate.
  - vm_compute; discriminate.
  - rewrite Hrun, Hzone'. reflexivity.
Defined.



(** C10.  In the build with both capabilities [default_handler] never
    returns false: whenever it returns, it returns true.  The protection
    failure ends in [exit(1)] and the overflow ends inside [fatal_abort],
    which never returns, so the final [return FALSE] is not reached. *)
Theorem default_handler_never_returns_false P B K G fault_addr zone context w :
  full_build B = true ->
  (forall b zone' w',
      default_handler P B K G fault_addr zone context w = Ret (b, zone') w' ->
      b = true)
  /\ (forall main_msg dump w0,
        exists w', fatal_abort P B G context main_msg dump w0 = Exit 1 w').
Proof.
  intros Hfull. split.
  - intros b zone' w' Hrun.
    destruct (Z.le_gt_cases (new_boundary P G fault_addr) (hardmax zone)) as [Hle|Hgt].
    + destruct (Z.le_gt_cases 0
                  (unprotect_result P K G zone (new_boundary P G fault_addr) w))
        as [Hok|Hfail].
      * rewrite default_handler_grows in Hrun by assumption. congruence.
      * rewrite default_handler_refused in Hrun by assumption. discriminate.
    + rewrite default_handler_overflows in Hrun by assumption. discriminate.
  - intros main_msg dump w0. eexists. apply fatal_abort_spec.
Qed.

Lemma default_handler_never_returns_false_witness :
  full_build siginfo_build = true
  /\ forall b zone' w',
       default_handler linux_x86 siginfo_build refusing_os (verbose []) 12112
         detstack a_context (start_world [detstack]) = Ret (b, zone') w' ->
       b = true.
Proof.
  split; [reflexivity|].
  apply (default_handler_never_returns_false linux_x86 siginfo_build refusing_os
           (verbose []) 12112 detstack a_context (start_world [detstack]) eq_refl).
Defined.

(** ** The stack dump *)

(** C8.  In a build with [MR_LOWLEVEL_DEBUG], [print_dump_stack] writes a
    header, then the recorded labels in order with every maximal run of
    consecutive identical labels as one line, "<label> * <count>" for a run
    of [count > 1] labels and "<label>" for a single label, then a trailer.
    The runs are the labels regrouped (expanding them gives the labels back),
    no run is empty and no two neighbouring runs carry the same label.  In a
    build without [MR_LOWLEVEL_DEBUG] it writes the one line that names
    `--low-level-debug'. *)
Theorem print_dump_stack_collapses_runs B G w :
  (MR_LOWLEVEL_DEBUG B = true ->
   print_dump_stack B G w
   = Ret tt (log w ([E_write STDERR dump_header]
                    ++ map (fun r => E_write STDERR (dump_line (fst r) (snd r)))
                           (maximal_runs (dumpstack G))
                    ++ [E_write STDERR dump_trailer]))
   /\ expand (maximal_runs (dumpstack G)) = dumpstack G
   /\ Forall (fun r => 1 <= snd r) (maximal_runs (dumpstack G))
   /\ neighbours_differ (maximal_runs (dumpstack G))
   /\ (forall label count,
         dump_line label count
         = if 1 <? count then label +++ " * " +++ decimal count +++ nl
           else label +++ nl))
  /\ (MR_LOWLEVEL_DEBUG B = false ->
      print_dump_stack B G w = Ret tt (log w [E_write STDERR dump_hint])
      /\ dump_hint = "You can get a stack dump by using `--low-level-debug'" +++ nl).
Proof.
  split; intros Hdebug.
  - rewrite print_dump_stack_spec. unfold dump_output. rewrite Hdebug.
    repeat split.
    + apply expand_maximal_runs.
    + apply maximal_runs_positive.
    + apply maximal_runs_maximal.
  - rewrite print_dump_stack_spec. unfold dump_output. rewrite Hdebug.
    split; reflexivity.
Qed.

Lemma print_dump_stack_collapses_runs_witness :
  print_dump_stack debug_build (quiet ["main"; "loop"; "loop"; "loop"; "main"; "main"])
    (start_world [])
  = Ret tt {| used_memory_zones := [];
              trace := [E_write 2 dump_header;
                        E_write 2 ("main" +++ nl);
                        E_write 2 ("loop * 3" +++ nl);
                        E_write 2 ("main * 2" +++ nl);
                        E_write 2 dump_trailer] |}
  /\ print_dump_stack siginfo_build
       (quiet ["main"; "loop"; "loop"; "loop"; "main"; "main"]) (start_world [])
     = Ret tt {| used_memory_zones := []; trace := [E_write 2 dump_hint] |}.
Proof.
  split.
  - destruct (print_dump_stack_collapses_runs debug_build
                (quiet ["main"; "loop"; "loop"; "loop"; "main"; "main"])
                (start_world [])) as [Hdump _].
    destruct (Hdump eq_refl) as [Hrun _]. rewrite Hrun. reflexivity.
  - destruct (print_dump_stack_collapses_runs siginfo_build
                (quiet ["main"; "loop"; "loop"; "loop"; "main"; "main"])
                (start_world [])) as [_ Hhint].
    destruct (Hhint eq_refl) as [Hrun _]. rewrite Hrun. reflexivity.
Defined.

(** ** Which computations touch the used zones *)

Create HintDb zones discriminated.

Lemma keeps_ret {A} (a : A) : keeps_zones (ret a).
Proof. intro w; reflexivity. Qed.

Lemma keeps_exit {A} s : keeps_zones (@exit A s).
Proof. intro w; reflexivity. Qed.

Lemma keeps_emit e : keeps_zones (emit e).
Proof. intro w; reflexivity. Qed.

Lemma keeps_get_trace : keeps_zones get_trace.
Proof. intro w; reflexivity. Qed.

Lemma keeps_bind {A C} (m : M A) (k : A -> M C) :
  keeps_zones m -> (forall a, keeps_zones (k a)) -> keeps_zones (bind m k).
Proof.
  intros Hm Hk w. unfold bind. specialize (Hm w).
  destruct (m w) as [a w'|s w']; cbn in *; [|assumption].
  now rewrite Hk.
Qed.

Lemma keeps_when b m : keeps_zones m -> keeps_zones (when b m).
Proof. intros Hm. destruct b; [assumption|apply keeps_ret]. Qed.

#[local] Hint Resolve keeps_ret keeps_exit keeps_emit keeps_get_trace keeps_when
  : zones.

(** Solve [keeps_zones m] by following the shape of [m]. *)
Ltac keeps :=
  lazymatch goal with
  | |- keeps_zones (bind _ _) => apply keeps_bind; [keeps | intro; keeps]
  | |- keeps_zones (when _ _) => apply keeps_when; keeps
  | |- keeps_zones (if ?b then _ else _) => destruct b; keeps
  | |- keeps_zones (match ?x with Some _ => _ | None => _ end) => destruct x; keeps
  | |- keeps_zones (let _ := _ in _) => cbv zeta; keeps
  | |- _ => solve [auto with zones]
  end.

Lemma keeps_fprintf_stderr text : keeps_zones (fprintf_stderr text).
Proof. apply keeps_emit. Qed.

Lemma keeps_write fd buf : keeps_zones (write fd buf).
Proof. apply keeps_emit. Qed.

Lemma keeps_perror s : keeps_zones (perror s).
Proof. apply keeps_emit. Qed.

Lemma keeps_fflush_stdout : keeps_zones fflush_stdout.
Proof. apply keeps_emit. Qed.

#[local] Hint Resolve keeps_fprintf_stderr keeps_write keeps_perror
  keeps_fflush_stdout : zones.

Lemma keeps_mprotect K addr len prot : keeps_zones (mprotect K addr len prot).
Proof. unfold mprotect. keeps. Qed.

Lemma keeps_signal K sig h : keeps_zones (signal K sig h).
Proof. unfold signal. keeps. Qed.

Lemma keeps_sigemptyset K : keeps_zones (sigemptyset K).
Proof. unfold sigemptyset. keeps. Qed.

Lemma keeps_sigaction K sig flags h : keeps_zones (sigaction K sig flags h).
Proof. unfold sigaction. keeps. Qed.

Lemma keeps_fail_if failed msg : keeps_zones (fail_if failed msg).
Proof. unfold fail_if. keeps. Qed.

Lemma keeps_print_dump_stack B G : keeps_zones (print_dump_stack B G).
Proof. intro w. now rewrite print_dump_stack_spec. Qed.

Lemma keeps_fatal_abort P B G context main_msg dump :
  keeps_zones (fatal_abort P B G context main_msg dump).
Proof. intro w. now rewrite fatal_abort_spec. Qed.

#[local] Hint Resolve keeps_mprotect keeps_signal keeps_sigemptyset keeps_sigaction
  keeps_fail_if keeps_print_dump_stack keeps_fatal_abort : zones.

Lemma keeps_exit_from_signal_handler B G :
  keeps_zones (exit_from_signal_handler B G).
Proof. unfold exit_from_signal_handler. keeps. Qed.

#[local] Hint Resolve keeps_exit_from_signal_handler : zones.

Lemma keeps_setup_signal P B K : keeps_zones (setup_signal P B K).
Proof. unfold setup_signal. keeps. Qed.

Lemma keeps_simple_sighandler P B G sig : keeps_zones (simple_sighandler P B G sig).
Proof. unfold simple_sighandler. keeps. Qed.

Lemma keeps_explain_segv P B info context :
  keeps_zones (explain_segv P B info context).
Proof. unfold explain_segv. keeps. Qed.

Lemma keeps_complex_bushandler P B G sig info context :
  keeps_zones (complex_bushandler P B G sig info context).
Proof. unfold complex_bushandler. keeps. Qed.

Lemma keeps_default_handler P B K G fault_addr zone context :
  keeps_zones (default_handler P B K G fault_addr zone context).
Proof. unfold default_handler. keeps. Qed.

Lemma keeps_null_handler fault_addr zone context :
  keeps_zones (null_handler fault_addr zone context).
Proof. apply keeps_ret. Qed.

Lemma keeps_call_handler P B K G h fault_addr zone context :
  keeps_zones (call_handler P B K G h fault_addr zone context).
Proof.
  destruct h; [apply keeps_default_handler|apply keeps_null_handler].
Qed.

#[local] Hint Resolve keeps_explain_segv keeps_call_handler : zones.

(** ** How zones evolve *)

Section Evolution.

Variable P : platform.
Variable B : build.
Variable K : os.
Variable G : globals.
Hypothesis Hsane : sane P G.

Lemma set_redzone_same z : set_redzone z (redzone z) = z.
Proof. now destruct z. Qed.

Lemma grown_refl z : grown z z.
Proof.
  unfold grown. rewrite set_redzone_same. repeat split; [lia|now left].
Qed.

Lemma grown_placed z z' : placed P G z -> grown z z' -> placed P G z'.
Proof.
  intros [Hred Htop] (Hz' & Hle & _). rewrite Hz'. unfold placed; cbn.
  split; [lia|assumption].
Qed.

Lemma grown_trans z1 z2 z3 : grown z1 z2 -> grown z2 z3 -> grown z1 z3.
Proof.
  intros (H2 & Hle2 & Hmax2) (H3 & Hle3 & Hmax3).
  assert (Hhard : hardmax z2 = hardmax z1) by now rewrite H2.
  repeat split.
  - rewrite H3, H2. reflexivity.
  - lia.
  - lia.
Qed.

Lemma grown_bounded z z' : grown z z' -> bounded z -> bounded z'.
Proof.
  intros (Hz' & Hle & Hmax) (Hmin & Hhard & Htop).
  rewrite Hz'. unfold bounded; cbn. lia.
Qed.

Lemma zones_evolve_refl zs : zones_evolve P G zs zs.
Proof.
  induction zs as [|z zs IH]; constructor; [|exact IH].
  intros _. apply grown_refl.
Qed.

Lemma zones_evolve_trans zs1 zs2 zs3 :
  zones_evolve P G zs1 zs2 -> zones_evolve P G zs2 zs3 -> zones_evolve P G zs1 zs3.
Proof.
  intros H12. revert zs3. induction H12 as [|z1 z2 zs1 zs2 Hz _ IH]; intros zs3 H23.
  - inversion H23; subst. constructor.
  - inversion H23 as [|? z3 ? zs3' Hz' Hrest]; subst. constructor.
    + intros Hplaced. specialize (Hz Hplaced).
      eapply grown_trans; [exact Hz|]. apply Hz'. eapply grown_placed; eauto.
    + now apply IH.
Qed.

Lemma keeps_advances {A} (m : M A) : keeps_zones m -> advances P G m.
Proof. intros Hm w. rewrite Hm. apply zones_evolve_refl. Qed.

Lemma advances_bind {A C} (m : M A) (k : A -> M C) :
  advances P G m -> (forall a, advances P G (k a)) -> advances P G (bind m k).
Proof.
  intros Hm Hk w. unfold bind. specialize (Hm w).
  destruct (m w) as [a w'|s w']; cbn in *; [|assumption].
  eapply zones_evolve_trans; [exact Hm|apply Hk].
Qed.

(** A successful call of [default_handler] under the router's condition
    moves the redzone upwards, to no more than [hardmax], and writes no
    other field. *)
Lemma default_handler_grown fault_addr zone context w b zone' w' :
  redzone zone <= fault_addr ->
  no_wrap P G fault_addr ->
  default_handler P B K G fault_addr zone context w = Ret (b, zone') w' ->
  grown zone zone'.
Proof.
  intros Hmatch Hnw Hrun.
  destruct (full_build B) eqn:Hfull.
  - destruct (Z.le_gt_cases (new_boundary P G fault_addr) (hardmax zone)) as [Hle|Hgt].
    + destruct (Z.le_gt_cases 0
                  (unprotect_result P K G zone (new_boundary P G fault_addr) w))
        as [Hok|Hfail].
      * rewrite default_handler_grows in Hrun by assumption.
        injection Hrun as _ <- _.
        pose proof (new_boundary_above P G fault_addr Hsane Hnw) as Habove.
        destruct Hsane as [_ Hword].
        unfold grown; cbn. repeat split; [lia|now right].
      * rewrite default_handler_refused in Hrun by assumption. discriminate.
    + rewrite default_handler_overflows in Hrun by assumption. discriminate.
  - rewrite default_handler_stub in Hrun by assumption.
    injection Hrun as _ <- _. apply grown_refl.
Qed.

Lemma call_handler_grown h fault_addr zone context w b zone' w' :
  placed P G zone ->
  in_redzone zone fault_addr ->
  call_handler P B K G h fault_addr zone context w = Ret (b, zone') w' ->
  grown zone zone'.
Proof.
  intros Hplaced Hin Hrun. destruct h; cbn [call_handler] in Hrun.
  - eapply default_handler_grown; [apply Hin| |exact Hrun].
    eapply placed_no_wrap; eauto.
  - injection Hrun as _ <- _. apply grown_refl.
Qed.

(** The router's loop gives back evolved zones and leaves the list held by
    the world alone. *)
Lemma try_munprotect_from_evolves zs a context w :
  match try_munprotect_from P B K G zs a context w with
  | Ret (_, zs') w' =>
      zones_evolve P G zs zs' /\ used_memory_zones w' = used_memory_zones w
  | Exit _ w' => used_memory_zones w' = used_memory_zones w
  end.
Proof.
  revert w. induction zs as [|z zs IH]; intro w.
  - cbn [try_munprotect_from]. unfold bind.
    pose proof (keeps_when (memdebug G) _ (keeps_fprintf_stderr msg_no_redzone) w) as Hk.
    destruct (when _ _ w) as [[] w1|s w1]; cbn in *; [|assumption].
    split; [constructor|assumption].
  - cbn [try_munprotect_from]. unfold bind at 1.
    pose proof (keeps_when (memdebug G) _ (keeps_fprintf_stderr (msg_checking P z)) w)
      as Hk.
    destruct (when _ _ w) as [[] w1|s w1]; cbn [world_of] in Hk; [|assumption].
    destruct ((redzone z <=? a) && (a <=? top z)) eqn:Htest.
    + apply in_redzone_test in Htest. unfold bind at 1.
      pose proof (keeps_when (memdebug G) _
                    (keeps_fprintf_stderr (msg_in_redzone z)) w1) as Hk1.
      destruct (when _ _ w1) as [[] w2|s w2]; cbn [world_of] in Hk1; [|congruence].
      unfold bind.
      pose proof (keeps_call_handler P B K G (handler z) a z context w2) as Hk2.
      destruct (call_handler P B K G (handler z) a z context w2)
        as [[r z'] w3|s w3] eqn:Hcall; cbn [world_of] in Hk2; [|congruence].
      cbn. split; [|congruence].
      constructor; [|apply zones_evolve_refl].
      intros Hplaced. eapply call_handler_grown; eauto.
    + unfold bind. specialize (IH w1).
      destruct (try_munprotect_from P B K G zs a context w1) as [[r zs'] w2|s w2];
        [|congruence].
      destruct IH as [Hzs Hw2]. cbn. split; [|congruence].
      constructor; [|exact Hzs]. intros _. apply grown_refl.
Qed.

Lemma advances_try_munprotect a context :
  advances P G (try_munprotect P B K G a context).
Proof.
  intro w. unfold try_munprotect.
  destruct (full_build B); [|apply zones_evolve_refl].
  unfold bind at 1, get_used_memory_zones. unfold bind at 1.
  pose proof (keeps_when (memdebug G) _ (keeps_fprintf_stderr (msg_caught P a)) w)
    as Hk.
  destruct (when _ _ w) as [[] w1|s w1]; cbn [world_of] in Hk;
    [|cbn; rewrite Hk; apply zones_evolve_refl].
  unfold bind at 1.
  pose proof (try_munprotect_from_evolves (used_memory_zones w) a context w1) as Hfrom.
  destruct (try_munprotect_from P B K G (used_memory_zones w) a context w1)
    as [[r zs'] w2|s w2].
  - destruct Hfrom as [Hzs _]. cbn. exact Hzs.
  - cbn. rewrite Hfrom, Hk. apply zones_evolve_refl.
Qed.

(** Solve [advances P G m] by following the shape of [m]. *)
Ltac adv :=
  lazymatch goal with
  | |- advances _ _ (bind _ _) => apply advances_bind; [adv | intro; adv]
  | |- advances _ _ (if ?b then _ else _) => destruct b; adv
  | |- advances _ _ (match ?x with Some _ => _ | None => _ end) => destruct x; adv
  | |- advances _ _ (let _ := _ in _) => cbv zeta; adv
  | |- advances _ _ (try_munprotect _ _ _ _ _ _) => apply advances_try_munprotect
  | |- _ => apply keeps_advances; keeps
  end.

Lemma advances_complex_sighandler sig context :
  advances P G (complex_sighandler P B K G sig context).
Proof. unfold complex_sighandler. adv. Qed.

Lemma advances_complex_segvhandler sig info context :
  advances P G (complex_segvhandler P B K G sig info context).
Proof. unfold complex_segvhandler. adv. Qed.

Lemma store_zone_same i z zs : nth_error zs i = Some z -> store_zone i z zs = zs.
Proof.
  revert i; induction zs as [|y zs IH]; intros [|i] Hi; cbn in *;
    try discriminate.
  - now injection Hi as ->.
  - now rewrite IH.
Qed.

Lemma store_zone_evolves i z z' zs :
  nth_error zs i = Some z ->
  (placed P G z -> grown z z') ->
  zones_evolve P G zs (store_zone i z' zs).
Proof.
  revert i; induction zs as [|y zs IH]; intros [|i] Hi Hz; cbn in *;
    try discriminate.
  - injection Hi as ->. constructor; [exact Hz|apply zones_evolve_refl].
  - constructor; [intros _; apply grown_refl|now apply IH].
Qed.

(** Over every admissible operation the used zones evolve. *)
Lemma run_advances op w :
  admissible P G op w ->
  zones_evolve P G (used_memory_zones w)
    (used_memory_zones (world_of (run P B K G op w))).
Proof.
  intros Hadm. destruct op; cbn [run].
  - apply keeps_advances, keeps_setup_signal.
  - apply advances_complex_sighandler.
  - apply keeps_advances, keeps_complex_bushandler.
  - apply advances_complex_segvhandler.
  - apply keeps_advances, keeps_simple_sighandler.
  - clear Hadm. revert w.
    change (advances P G (_ <- try_munprotect P B K G addr context;; ret tt)).
    adv.
  - destruct Hadm as (z & Hz & Hmatch & Hnw).
    unfold on_zone, bind at 1, get_used_memory_zones. rewrite Hz. unfold bind.
    pose proof (keeps_default_handler P B K G fault_addr z context w) as Hk.
    destruct (default_handler P B K G fault_addr z context w)
      as [[b z'] w'|s w'] eqn:Hrun; cbn in *.
    + eapply store_zone_evolves; [exact Hz|]. intros _.
      eapply default_handler_grown; eauto.
    + rewrite Hk. apply zones_evolve_refl.
  - unfold on_zone, bind at 1, get_used_memory_zones.
    destruct (nth_error (used_memory_zones w) i) as [z|] eqn:Hz;
      [|apply zones_evolve_refl].
    cbn. rewrite store_zone_same by assumption. apply zones_evolve_refl.
  - apply keeps_advances, keeps_fatal_abort.
  - apply keeps_advances, keeps_print_dump_stack.
Qed.

(** The operations that cannot reach [default_handler] leave every zone as
    it is. *)
Lemma run_keeps op :
  reaches_default_handler op = false -> keeps_zones (run P B K G op).
Proof.
  intros Hop. destruct op; try discriminate; cbn [run].
  - apply keeps_setup_signal.
  - apply keeps_complex_bushandler.
  - apply keeps_simple_sighandler.
  - intro w. unfold on_zone, bind at 1, get_used_memory_zones.
    destruct (nth_error (used_memory_zones w) i) as [z|] eqn:Hz; [|reflexivity].
    cbn. now apply store_zone_same.
  - apply keeps_fatal_abort.
  - apply keeps_print_dump_stack.
Qed.

Lemma zones_evolve_invariant zs zs' :
  zones_evolve P G zs zs' ->
  Forall (fun z => bounded z /\ placed P G z) zs ->
  Forall (fun z => bounded z /\ placed P G z) zs'.
Proof.
  induction 1 as [|z z' zs zs' Hz _ IH]; intros Hall; [constructor|].
  inversion Hall as [|? ? [Hb Hp] Hrest]; subst.
  constructor; [|now apply IH].
  split; [eapply grown_bounded|eapply grown_placed]; eauto.
Qed.

End Evolution.

(** ** The zone invariant *)

(** C1, as the code has it.  Let the alignment unit and the word size be
    positive and let every used zone lie low enough in the address space for
    the handler's address arithmetic not to wrap.  If every used zone
    satisfies [min <= redzone <= hardmax] and [top <= hardmax], then so does
    every used zone in every world reachable by the operations of the file
    (setup, signal handlers, router, zone handlers called with an address not
    below the redzone, abort path): [default_handler] never sets the redzone
    above [hardmax].  It may set it above [top]. *)
Theorem zone_bounds_invariant P B K G w0 w :
  sane P G ->
  Forall (placed P G) (used_memory_zones w0) ->
  Forall bounded (used_memory_zones w0) ->
  reachable P B K G w0 w ->
  Forall (fun z => min z <= redzone z /\ redzone z <= hardmax z
                   /\ top z <= hardmax z)
         (used_memory_zones w).
Proof.
  intros Hsane Hplaced Hbounded Hreach.
  assert (Hinv : Forall (fun z => bounded z /\ placed P G z) (used_memory_zones w)).
  { induction Hreach as [|w op _ IH Hadm].
    - rewrite Forall_forall in *. intros z Hz. split; auto.
    - eapply zones_evolve_invariant; [|exact IH].
      now apply run_advances. }
  rewrite Forall_forall in *. intros z Hz. now apply Hinv.
Qed.

Lemma zone_bounds_invariant_witness :
  Forall (fun z => min z <= redzone z /\ redzone z <= hardmax z
                   /\ top z <= hardmax z)
    (used_memory_zones
       (world_of (run linux_x86 siginfo_build obliging_os (quiet [])
                      (op_try_munprotect 12288 a_context) (start_world [detstack])))).
Proof.
  apply (zone_bounds_invariant linux_x86 siginfo_build obliging_os (quiet [])
           (start_world [detstack])).
  - unfold sane; cbn; lia.
  - repeat constructor; cbn; lia.
  - repeat constructor; cbn; lia.
  - apply reachable_step; [apply reachable_start|exact I].
Defined.

(** The chain with [redzone <= top] is not kept: a fault at [top] of the
    scenario zone (redzone 0x2F00, top 0x3000, hardmax 0x9000) is in its
    redzone, and the handler moves the redzone to 0x4000, above [top]. *)
Lemma chain_broken_above_top :
  Forall chain (used_memory_zones (start_world [detstack]))
  /\ reachable linux_x86 siginfo_build obliging_os (quiet [])
       (start_world [detstack])
       {| used_memory_zones := [set_redzone detstack 16384];
          trace := [E_mprotect 12032 4352 3] |}
  /\ ~ Forall chain [set_redzone detstack 16384]
  /\ default_handler linux_x86 siginfo_build obliging_os (quiet []) 12288 detstack
       a_context (start_world [detstack])
     = Ret (true, set_redzone detstack 16384)
           {| used_memory_zones := [detstack]; trace := [E_mprotect 12032 4352 3] |}
  /\ top (set_redzone detstack 16384) < redzone (set_redzone detstack 16384).
Proof.
  split; [|split; [|split; [|split]]].
  - repeat constructor; cbn; lia.
  - apply (reachable_step linux_x86 siginfo_build obliging_os (quiet [])
             (start_world [detstack]) (start_world [detstack])
             (op_try_munprotect 12288 a_context));
      [apply reachable_start|exact I].
  - intros Hall. inversion Hall as [|? ? [_ [Htop _]] _]; subst.
    cbn in Htop. lia.
  - reflexivity.
  - cbn; lia.
Qed.

(** ** The redzone never moves down *)




(** ** The abort path *)

(** C6, as the code has it.  Every call of [fatal_abort] writes the given
    message to the error stream, then the text of [explain_context] (the line
    "PC at signal: <decimal> (<hexadecimal>)" when the build can read the
    program counter from the context, the empty text otherwise), then asks
    for the raw trace report, then prints the stack dump (or the hint) when
    [dump] is set, each text with a single [write], and ends the process with
    status 1.  The faulting address is not among its arguments and is not
    written. *)
Theorem fatal_abort_output P B G context main_msg dump w :
  fatal_abort P B G context main_msg dump w
  = Exit 1 (log w ([E_write STDERR main_msg;
                    E_write STDERR (explain_context P B context);
                    E_MR_trace_report_raw STDERR]
                   ++ if dump then dump_output B G else []))
  /\ explain_context P B context
     = (if PC_ACCESS B
        then "PC at signal: " +++ fmt_ld P (pc_at_signal context)
               +++ " (" +++ fmt_lx P (pc_at_signal context) +++ ")" +++ nl
        else "").
Proof. split; [apply fatal_abort_spec|reflexivity]. Qed.

(** A zone overflow caused by a fault at 0x9000: the abort path writes the
    message, the program-counter line, the trace report and the dump hint;
    no text it writes mentions the faulting address, and a fault at another
    address of the same zone gives the very same output. *)
Lemma fatal_abort_omits_fault_address :
  fatal_abort linux_x86 siginfo_build (quiet []) ceiling_context
    (msg_overflowed detstack_near_ceiling) true
    (start_world [detstack_near_ceiling])
  = Exit 1
      {| used_memory_zones := [detstack_near_ceiling];
         trace := [E_write 2 (msg_overflowed detstack_near_ceiling);
                   E_write 2 ("PC at signal: 134513000 (8048168)" +++ nl);
                   E_MR_trace_report_raw 2;
                   E_write 2 dump_hint] |}
  /\ trace (world_of
       (default_handler linux_x86 siginfo_build obliging_os (quiet []) 36864
          detstack_near_ceiling ceiling_context
          (start_world [detstack_near_ceiling])))
     = [E_write 2 (msg_overflowed detstack_near_ceiling);
        E_write 2 ("PC at signal: 134513000 (8048168)" +++ nl);
        E_MR_trace_report_raw 2;
        E_write 2 dump_hint]
  /\ existsb (mentions (show_ptr linux_x86 36864))
       [E_write 2 (msg_overflowed detstack_near_ceiling);
        E_write 2 ("PC at signal: 134513000 (8048168)" +++ nl);
        E_MR_trace_report_raw 2;
        E_write 2 dump_hint]
     = false
  /\ existsb (mentions (hexadecimal 36864))
       [E_write 2 (msg_overflowed detstack_near_ceiling);
        E_write 2 ("PC at signal: 134513000 (8048168)" +++ nl);
        E_MR_trace_report_raw 2;
        E_write 2 dump_hint]
     = false
  /\ existsb (mentions (decimal 36864))
       [E_write 2 (msg_overflowed detstack_near_ceiling);
        E_write 2 ("PC at signal: 134513000 (8048168)" +++ nl);
        E_MR_trace_report_raw 2;
        E_write 2 dump_hint]
     = false
  /\ default_handler linux_x86 siginfo_build obliging_os (quiet []) 36868
       detstack_near_ceiling ceiling_context (start_world [detstack_near_ceiling])
     = default_handler linux_x86 siginfo_build obliging_os (quiet []) 36864
         detstack_near_ceiling ceiling_context (start_world [detstack_near_ceiling]).
Proof. repeat split; vm_compute; reflexivity. Qed.

(** ** Exit statuses *)

Lemma exits_1_ret {A} (a : A) : exits_1 (ret a).
Proof. intros w s; discriminate. Qed.

Lemma exits_1_exit {A} : exits_1 (@exit A 1).
Proof. intros w s; cbn; congruence. Qed.

Lemma exits_1_emit e : exits_1 (emit e).
Proof. intros w s; discriminate. Qed.

Lemma exits_1_get_trace : exits_1 get_trace.
Proof. intros w s; discriminate. Qed.

Lemma exits_1_get_used_memory_zones : exits_1 get_used_memory_zones.
Proof. intros w s; discriminate. Qed.

Lemma exits_1_put_used_memory_zones zs : exits_1 (put_used_memory_zones zs).
Proof. intros w s; discriminate. Qed.

Lemma exits_1_bind {A C} (m : M A) (k : A -> M C) :
  exits_1 m -> (forall a, exits_1 (k a)) -> exits_1 (bind m k).
Proof.
  intros Hm Hk w s. unfold bind. specialize (Hm w).
  destruct (m w) as [a w'|s' w']; cbn in *; [apply Hk|apply Hm].
Qed.

Lemma aborts_exit {A} : aborts (@exit A 1).
Proof. intro w; reflexivity. Qed.

Lemma aborts_bind {A C} (m : M A) (k : A -> M C) :
  exits_1 m -> (forall a, aborts (k a)) -> aborts (bind m k).
Proof.
  intros Hm Hk w. unfold bind. specialize (Hm w).
  destruct (m w) as [a w'|s' w']; cbn in *; [apply Hk|].
  now rewrite (Hm s' eq_refl).
Qed.

Lemma aborts_exits_1 {A} (m : M A) : aborts m -> exits_1 m.
Proof. intros Hm w s Hs. rewrite Hm in Hs. congruence. Qed.

Create HintDb exits discriminated.

(** Solve [exits_1 m] by following the shape of [m]. *)
Ltac exits :=
  lazymatch goal with
  | |- exits_1 (bind _ _) => apply exits_1_bind; [exits | intro; exits]
  | |- exits_1 (when ?b _) => unfold when; destruct b; exits
  | |- exits_1 (if ?b then _ else _) => destruct b; exits
  | |- exits_1 (match ?x with Some _ => _ | None => _ end) => destruct x; exits
  | |- exits_1 (let '(_, _) := ?x in _) => destruct x; exits
  | |- exits_1 (let _ := _ in _) => cbv zeta; exits
  | |- exits_1 (exit 1) => apply exits_1_exit
  | |- exits_1 (ret _) => apply exits_1_ret
  | |- exits_1 (emit _) => apply exits_1_emit
  | |- _ => solve [auto with exits]
  end.

#[local] Hint Resolve exits_1_get_trace exits_1_get_used_memory_zones
  exits_1_put_used_memory_zones : exits.

Lemma exits_1_fprintf_stderr text : exits_1 (fprintf_stderr text).
Proof. apply exits_1_emit. Qed.

Lemma exits_1_write fd buf : exits_1 (write fd buf).
Proof. apply exits_1_emit. Qed.

Lemma exits_1_perror s : exits_1 (perror s).
Proof. apply exits_1_emit. Qed.

Lemma exits_1_fflush_stdout : exits_1 fflush_stdout.
Proof. apply exits_1_emit. Qed.

#[local] Hint Resolve exits_1_fprintf_stderr exits_1_write exits_1_perror
  exits_1_fflush_stdout : exits.

Lemma exits_1_mprotect K addr len prot : exits_1 (mprotect K addr len prot).
Proof. unfold mprotect. exits. Qed.

Lemma exits_1_signal K sig h : exits_1 (signal K sig h).
Proof. unfold signal. exits. Qed.

Lemma exits_1_sigemptyset K : exits_1 (sigemptyset K).
Proof. unfold sigemptyset. exits. Qed.

Lemma exits_1_sigaction K sig flags h : exits_1 (sigaction K sig flags h).
Proof. unfold sigaction. exits. Qed.

Lemma exits_1_fail_if failed msg : exits_1 (fail_if failed msg).
Proof. unfold fail_if. exits. Qed.

Lemma exits_1_print_dump_stack B G : exits_1 (print_dump_stack B G).
Proof. intros w s. rewrite print_dump_stack_spec. discriminate. Qed.

Lemma exits_1_fatal_abort P B G context main_msg dump :
  exits_1 (fatal_abort P B G context main_msg dump).
Proof. intros w s. rewrite fatal_abort_spec. cbn. congruence. Qed.

#[local] Hint Resolve exits_1_mprotect exits_1_signal exits_1_sigemptyset
  exits_1_sigaction exits_1_fail_if exits_1_print_dump_stack exits_1_fatal_abort
  : exits.

Lemma aborts_exit_from_signal_handler B G : aborts (exit_from_signal_handler B G).
Proof.
  unfold exit_from_signal_handler.
  repeat (apply aborts_bind; [exits|intro]). apply aborts_exit.
Qed.

Lemma exits_1_exit_from_signal_handler B G : exits_1 (exit_from_signal_handler B G).
Proof. apply aborts_exits_1, aborts_exit_from_signal_handler. Qed.

#[local] Hint Resolve exits_1_exit_from_signal_handler : exits.

Lemma exits_1_setup_signal P B K : exits_1 (setup_signal P B K).
Proof. unfold setup_signal. exits. Qed.

Lemma exits_1_simple_sighandler P B G sig : exits_1 (simple_sighandler P B G sig).
Proof. unfold simple_sighandler. exits. Qed.

Lemma exits_1_explain_segv P B info context :
  exits_1 (explain_segv P B info context).
Proof. unfold explain_segv. exits. Qed.

Lemma exits_1_complex_bushandler P B G sig info context :
  exits_1 (complex_bushandler P B G sig info context).
Proof. unfold complex_bushandler. exits. Qed.

Lemma exits_1_default_handler P B K G fault_addr zone context :
  exits_1 (default_handler P B K G fault_addr zone context).
Proof. unfold default_handler. exits. Qed.

Lemma exits_1_null_handler fault_addr zone context :
  exits_1 (null_handler fault_addr zone context).
Proof. apply exits_1_ret. Qed.

Lemma exits_1_call_handler P B K G h fault_addr zone context :
  exits_1 (call_handler P B K G h fault_addr zone context).
Proof.
  destruct h; [apply exits_1_default_handler|apply exits_1_null_handler].
Qed.

#[local] Hint Resolve exits_1_explain_segv exits_1_call_handler
  exits_1_default_handler exits_1_null_handler : exits.

Lemma exits_1_try_munprotect_from P B K G zs a context :
  exits_1 (try_munprotect_from P B K G zs a context).
Proof.
  induction zs as [|z zs IH]; cbn [try_munprotect_from]; exits.
Qed.

#[local] Hint Resolve exits_1_try_munprotect_from : exits.

Lemma exits_1_try_munprotect P B K G a context :
  exits_1 (try_munprotect P B K G a context).
Proof. unfold try_munprotect. exits. Qed.

#[local] Hint Resolve exits_1_try_munprotect : exits.

Lemma exits_1_complex_sighandler P B K G sig context :
  exits_1 (complex_sighandler P B K G sig context).
Proof. unfold complex_sighandler. exits. Qed.

Lemma exits_1_complex_segvhandler P B K G sig info context :
  exits_1 (complex_segvhandler P B K G sig info context).
Proof. unfold complex_segvhandler. exits. Qed.

Lemma exits_1_on_zone i (h : MemoryZone -> M (bool * MemoryZone)) :
  (forall z, exits_1 (h z)) -> exits_1 (on_zone i h).
Proof.
  intros Hh. unfold on_zone. apply exits_1_bind; [exits|intro zs].
  destruct (nth_error zs i) as [z|]; [|exits].
  apply exits_1_bind; [apply Hh|intros [b z']; exits].
Qed.

(** No operation of the file ends the process with a status other than 1. *)
Lemma exits_1_run P B K G op : exits_1 (run P B K G op).
Proof.
  destruct op; cbn [run].
  - apply exits_1_setup_signal.
  - apply exits_1_complex_sighandler.
  - apply exits_1_complex_bushandler.
  - apply exits_1_complex_segvhandler.
  - apply exits_1_simple_sighandler.
  - exits.
  - apply exits_1_on_zone. intro z. apply exits_1_default_handler.
  - apply exits_1_on_zone. intro z. apply exits_1_null_handler.
  - apply exits_1_fatal_abort.
  - apply exits_1_print_dump_stack.
Qed.

(** ** The unrecoverable conditions *)

Section Unrecoverable.

Variable P : platform.
Variable B : build.
Variable K : os.
Variable G : globals.

Ltac exec_setup :=
  cbv beta iota zeta delta
    [bind ret exit when emit fprintf_stderr write perror fflush_stdout
     signal sigemptyset sigaction fail_if get_trace];
  cbn [trace log app exit_status].

(** [setup_signal] returns exactly when every call it makes succeeds, and
    ends the process with status 1 otherwise. *)
Lemma setup_signal_fails w :
  setup_failure P B K w -> exit_status (setup_signal P B K w) = Some 1.
Proof.
  unfold setup_failure, setup_signal.
  destruct (HAVE_SIGCONTEXT_STRUCT B); [|destruct (HAVE_SIGINFO_T B)]; exec_setup.
  - intros [Hbus|Hsegv].
    + now rewrite Hbus.
    + destruct (signal_is_SIG_ERR K (trace w) (SIGBUS P)); [reflexivity|].
      cbn [trace log]. now rewrite Hsegv.
  - intros Hfail.
    destruct (Z.eqb_spec (sigemptyset_result K (trace w)) 0) as [Hmask|Hmask];
      [|reflexivity].
    cbn [negb trace log].
    destruct (Z.eqb_spec (sigaction_result K (trace w ++ [E_sigemptyset]) (SIGBUS P)) 0)
      as [Hbus|Hbus]; [|reflexivity].
    cbn [negb trace log]. rewrite <- app_assoc. cbn [app].
    destruct (Z.eqb_spec
                (sigaction_result K
                   (trace w ++ [E_sigemptyset;
                                E_sigaction (SIGBUS P)
                                  (Z.lor (SA_SIGINFO P) (SA_RESTART P))
                                  complex_bushandler_ptr]) (SIGSEGV P)) 0)
      as [Hsegv|Hsegv]; [|reflexivity].
    tauto.
  - intros [Hbus|Hsegv].
    + now rewrite Hbus.
    + destruct (signal_is_SIG_ERR K (trace w) (SIGBUS P)); [reflexivity|].
      cbn [trace log]. now rewrite Hsegv.
Qed.

Lemma setup_signal_succeeds w :
  ~ setup_failure P B K w -> exit_status (setup_signal P B K w) = None.
Proof.
  unfold setup_failure, setup_signal.
  destruct (HAVE_SIGCONTEXT_STRUCT B); [|destruct (HAVE_SIGINFO_T B)]; exec_setup.
  - intros Hok.
    destruct (signal_is_SIG_ERR K (trace w) (SIGBUS P)); [tauto|].
    cbn [trace log].
    destruct (signal_is_SIG_ERR K _ (SIGSEGV P)); [tauto|reflexivity].
  - intros Hok.
    destruct (Z.eqb_spec (sigemptyset_result K (trace w)) 0) as [Hmask|Hmask];
      [|tauto].
    cbn [negb trace log].
    destruct (Z.eqb_spec (sigaction_result K (trace w ++ [E_sigemptyset]) (SIGBUS P)) 0)
      as [Hbus|Hbus]; [|tauto].
    cbn [negb trace log]. rewrite <- app_assoc. cbn [app].
    destruct (Z.eqb_spec
                (sigaction_result K
                   (trace w ++ [E_sigemptyset;
                                E_sigaction (SIGBUS P)
                                  (Z.lor (SA_SIGINFO P) (SA_RESTART P))
                                  complex_bushandler_ptr]) (SIGSEGV P)) 0)
      as [Hsegv|Hsegv]; [reflexivity|tauto].
  - intros Hok.
    destruct (signal_is_SIG_ERR K (trace w) (SIGBUS P)); [tauto|].
    cbn [trace log].
    destruct (signal_is_SIG_ERR K _ (SIGSEGV P)); [tauto|reflexivity].
Qed.

(** A fault that belongs to no zone, or whose zone is bound to
    [null_handler], is reported unhandled by the router in every build. *)
Lemma try_munprotect_unhandled a context w :
  foreign_fault w a \/ (exists z, owner w a z /\ handler z = null_handler_ptr) ->
  forall w1, used_memory_zones w1 = used_memory_zones w ->
  exists w2, try_munprotect P B K G a context w1 = Ret false w2.
Proof.
  intros Hcond w1 Hw1. destruct (full_build B) eqn:Hfull.
  - destruct Hcond as [Hforeign|(z & (pre & post & Hw & Hpre & Hz) & Hnull)].
    + eexists. apply try_munprotect_foreign; [assumption|].
      unfold foreign_fault in Hforeign. now rewrite Hw1.
    + rewrite (try_munprotect_owner P B K G pre z post a context w1 Hfull
                 ltac:(congruence) Hpre Hz).
      rewrite Hnull. cbn [call_handler]. unfold null_handler, ret. eauto.
  - eexists. now apply try_munprotect_stub.
Qed.

(** A signal handler that asks the router and is told "unhandled" goes on
    to its diagnostics and [exit(1)]. *)
Lemma unhandled_fault_aborts (prefix resume report : M void) a context w :
  exits_1 prefix -> keeps_zones prefix -> aborts report ->
  (forall w1, used_memory_zones w1 = used_memory_zones w ->
              exists w2, try_munprotect P B K G a context w1 = Ret false w2) ->
  exit_status
    ((prefix;;
      handled <- try_munprotect P B K G a context;;
      if handled then resume else report) w) = Some 1.
Proof.
  intros Hexits Hkeeps Hreport Hrouter. unfold bind at 1.
  specialize (Hexits w). specialize (Hkeeps w).
  destruct (prefix w) as [[] w1|s w1]; cbn in *.
  - destruct (Hrouter w1 Hkeeps) as [w2 Hw2]. unfold bind. rewrite Hw2. apply Hreport.
  - now rewrite (Hexits s eq_refl).
Qed.

Ltac aborting :=
  lazymatch goal with
  | |- aborts (exit_from_signal_handler _ _) => apply aborts_exit_from_signal_handler
  | |- aborts (exit 1) => apply aborts_exit
  | |- aborts (bind _ _) => apply aborts_bind; [exits | intro; aborting]
  | |- aborts (if ?b then _ else _) => destruct b; aborting
  | |- aborts (match ?x with Some _ => _ | None => _ end) => destruct x; aborting
  end.

(** The handlers that do not ask the router never return. *)
Lemma aborts_simple_sighandler sig : aborts (simple_sighandler P B G sig).
Proof. unfold simple_sighandler. aborting. Qed.

Lemma aborts_complex_bushandler sig info context :
  aborts (complex_bushandler P B G sig info context).
Proof. unfold complex_bushandler. aborting. Qed.

(** A signal other than a segmentation violation is fatal to
    [complex_sighandler], whatever it is. *)
Lemma aborts_complex_sighandler_other sig context :
  sig <> SIGSEGV P -> aborts (complex_sighandler P B K G sig context).
Proof.
  intros Hsig. unfold complex_sighandler. cbv zeta.
  destruct (Z.eqb_spec sig (SIGSEGV P)); [contradiction|]. aborting.
Qed.

(** A delivery that is not a well formed segmentation violation is fatal to
    [complex_segvhandler]. *)
Lemma aborts_complex_segvhandler_strange sig info context :
  strange_delivery (SIGSEGV P) sig info ->
  aborts (complex_segvhandler P B K G sig info context).
Proof.
  intros Hstrange. unfold complex_segvhandler.
  destruct info as [info'|]; [|aborting].
  destruct Hstrange as [Hsig|Hsigno].
  - destruct (Z.eqb_spec sig (SIGSEGV P)); [contradiction|].
    cbn [negb orb]. aborting.
  - destruct (Z.eqb_spec (si_signo info') (SIGSEGV P)); [contradiction|].
    cbn [negb]. rewrite orb_true_r. aborting.
Qed.

(** A signal handler that asks the router returns only when the router has
    answered "handled". *)
Lemma routed_fault_returns (prefix resume report : M void) a context w :
  exits_1 prefix -> keeps_zones prefix -> aborts report ->
  exit_status
    ((prefix;;
      handled <- try_munprotect P B K G a context;;
      if handled then resume else report) w) = None ->
  exists w1 w2,
    used_memory_zones w1 = used_memory_zones w
    /\ try_munprotect P B K G a context w1 = Ret true w2.
Proof.
  intros Hexits Hkeeps Hreport. unfold bind at 1.
  specialize (Hkeeps w).
  destruct (prefix w) as [[] w1|s w1]; cbn [world_of] in Hkeeps; [|discriminate].
  unfold bind.
  destruct (try_munprotect P B K G a context w1) as [[|] w2|s w2] eqn:Hrouter.
  - intros _. now exists w1, w2.
  - rewrite Hreport. discriminate.
  - discriminate.
Qed.

(** The router answers "handled" only for an address whose first holder is
    bound to [default_handler] and can grow. *)
Lemma try_munprotect_handled a context w w' :
  try_munprotect P B K G a context w = Ret true w' ->
  full_build B = true
  /\ exists z, owner w a z /\ handler z = default_handler_ptr
               /\ new_boundary P G a <= hardmax z.
Proof.
  intros Hrun. destruct (full_build B) eqn:Hfull;
    [|rewrite try_munprotect_stub in Hrun by assumption; discriminate].
  split; [reflexivity|].
  destruct (first_owner_dec (used_memory_zones w) a)
    as [Hnone|(pre & z & post & Hw & Hpre & Hz)].
  - rewrite try_munprotect_foreign in Hrun by assumption. discriminate.
  - rewrite (try_munprotect_owner P B K G pre z post a context w Hfull Hw Hpre Hz)
      in Hrun.
    exists z. split; [now exists pre, post|].
    destruct (handler z); cbn [call_handler] in Hrun; [|discriminate].
    split; [reflexivity|].
    destruct (Z.le_gt_cases (new_boundary P G a) (hardmax z)) as [Hle|Hgt];
      [assumption|].
    rewrite default_handler_overflows in Hrun by assumption. discriminate.
Qed.

(** When the operating system refuses the protection change whatever the
    process has done before, the router does not answer. *)
Lemma try_munprotect_refused a context w z :
  full_build B = true ->
  owner w a z ->
  handler z = default_handler_ptr ->
  new_boundary P G a <= hardmax z ->
  (forall t, mprotect_result K t (redzone z)
               (wrap P (new_boundary P G a - redzone z))
               (Z.lor (PROT_READ P) (PROT_WRITE P)) < 0) ->
  exit_status (try_munprotect P B K G a context w) = Some 1.
Proof.
  intros Hfull (pre & post & Hw & Hpre & Hz) Hdefault Hle Hrefuse.
  rewrite (try_munprotect_owner P B K G pre z post a context w Hfull Hw Hpre Hz).
  rewrite Hdefault. cbn [call_handler].
  rewrite default_handler_refused; [reflexivity|assumption|assumption|].
  apply Hrefuse.
Qed.

(** A signal handler returns only from the delivery of a segmentation
    violation that the router has handled. *)
Lemma signal_handler_returns op w :
  is_signal_handler op = true ->
  exit_status (run P B K G op w) = None ->
  exists a context w1 w2,
    segv_delivery P op a
    /\ used_memory_zones w1 = used_memory_zones w
    /\ try_munprotect P B K G a context w1 = Ret true w2.
Proof.
  intros Hop Hret. destruct op; try discriminate; cbn [run] in Hret.
  - destruct (Z.eq_dec sig (SIGSEGV P)) as [->|Hsig].
    + unfold complex_sighandler in Hret. cbv zeta in Hret.
      rewrite Z.eqb_refl in Hret.
      apply routed_fault_returns in Hret; [|exits|keeps|aborting].
      destruct Hret as (w1 & w2 & Hw1 & Hrun).
      exists (cr2 context), context, w1, w2.
      split; [constructor|now split].
    + rewrite (aborts_complex_sighandler_other sig context Hsig) in Hret.
      discriminate.
  - rewrite aborts_complex_bushandler in Hret. discriminate.
  - destruct info as [info'|];
      [|rewrite aborts_complex_segvhandler_strange in Hret by (right; exact I);
        discriminate].
    destruct (Z.eq_dec sig (SIGSEGV P)) as [->|Hsig];
      [|rewrite aborts_complex_segvhandler_strange in Hret by (now left);
        discriminate].
    destruct (Z.eq_dec (si_signo info') (SIGSEGV P)) as [Hsigno|Hsigno];
      [|rewrite aborts_complex_segvhandler_strange in Hret by (now right);
        discriminate].
    unfold complex_segvhandler in Hret.
    rewrite Hsigno, Z.eqb_refl in Hret. cbn [negb orb] in Hret.
    apply routed_fault_returns in Hret; [|exits|keeps|aborting].
    destruct Hret as (w1 & w2 & Hw1 & Hrun).
    exists (si_addr info'), context, w1, w2.
    split; [now constructor|now split].
  - rewrite aborts_simple_sighandler in Hret. discriminate.
Qed.

(** The context a delivery hands to the router does not matter to which
    world the router is asked in: the holder of the address is the same. *)
Lemma owner_same_zones w w1 a z :
  used_memory_zones w1 = used_memory_zones w -> owner w a z -> owner w1 a z.
Proof. unfold owner. now intros ->. Qed.

(** A delivery whose holder is bound to [default_handler] but cannot grow,
    because the zone overflows or because the operating system refuses the
    protection change, is fatal. *)
Lemma ungrowable_segv_aborts op a w z :
  segv_delivery P op a ->
  full_build B = true ->
  owner w a z ->
  handler z = default_handler_ptr ->
  hardmax z < new_boundary P G a
  \/ (new_boundary P G a <= hardmax z
      /\ forall t, mprotect_result K t (redzone z)
                     (wrap P (new_boundary P G a - redzone z))
                     (Z.lor (PROT_READ P) (PROT_WRITE P)) < 0) ->
  exit_status (run P B K G op w) = Some 1.
Proof.
  intros Hop Hfull Howner Hdefault Hcond.
  destruct (exit_status (run P B K G op w)) as [s|] eqn:Hstatus.
  - f_equal. eapply exits_1_run; eauto.
  - exfalso.
    apply signal_handler_returns in Hstatus; [|destruct Hop; reflexivity].
    destruct Hstatus as (a' & context & w1 & w2 & Hop' & Hw1 & Hrun).
    assert (a' = a) as ->.
    { destruct Hop; inversion Hop'; subst; reflexivity. }
    apply (owner_same_zones w w1) in Howner; [|assumption].
    destruct Hcond as [Hgt|[Hle Hrefuse]].
    + destruct Howner as (pre & post & Hzs & Hpre & Hz).
      rewrite (try_munprotect_owner P B K G pre z post a context w1 Hfull Hzs Hpre Hz)
        in Hrun.
      rewrite Hdefault in Hrun. cbn [call_handler] in Hrun.
      rewrite default_handler_overflows in Hrun by assumption. discriminate.
    + pose proof (try_munprotect_refused a context w1 z Hfull Howner Hdefault
                    Hle Hrefuse) as Hexit.
      rewrite Hrun in Hexit. discriminate.
Qed.

Lemma unhandled_segv_aborts op a w :
  segv_delivery P op a ->
  foreign_fault w a \/ (exists z, owner w a z /\ handler z = null_handler_ptr) ->
  exit_status (run P B K G op w) = Some 1.
Proof.
  intros Hop Hcond.
  destruct Hop as [context|info context Hsig]; cbn [run].
  - unfold complex_sighandler. cbv zeta. rewrite Z.eqb_refl.
    apply unhandled_fault_aborts.
    + exits.
    + keeps.
    + aborting.
    + now apply try_munprotect_unhandled.
  - unfold complex_segvhandler. rewrite Hsig, Z.eqb_refl. cbn [negb orb].
    apply unhandled_fault_aborts.
    + exits.
    + keeps.
    + aborting.
    + now apply try_munprotect_unhandled.
Qed.

End Unrecoverable.

(** C7.  No operation of the file ends the process with a status other than
    1, and each unrecoverable condition ends it with status 1: a failure to
    install the handlers in [setup_signal] (which returns when every
    installation succeeds); a segmentation violation whose
    address belongs to no used zone (foreign fault); one whose zone is bound
    to [null_handler] (policy refusal); a fault whose rounded boundary is
    above [hardmax] (zone overflow, through [fatal_abort]); a refused
    protection change in [default_handler].  The handlers that do not ask
    the router (bus errors, and every signal when no fault address is
    delivered) always end the process with status 1, and so does
    [complex_sighandler] for every signal other than a segmentation
    violation and [complex_segvhandler] for every delivery that is not a well
    formed segmentation violation.  A signal handler returns only from the
    delivery of a segmentation violation whose first holder is bound to
    [default_handler] and whose rounded boundary is not above [hardmax]; a
    zone overflow or a refused protection change ends the process also as
    seen from the signal handler. *)
Theorem unrecoverable_exit_status_1 P B K G :
  (forall op w s, exit_status (run P B K G op w) = Some s -> s = 1)
  /\ (forall w,
        (setup_failure P B K w ->
         exit_status (run P B K G op_setup_signal w) = Some 1)
        /\ (~ setup_failure P B K w ->
            exit_status (run P B K G op_setup_signal w) = None))
  /\ (forall op a w,
        segv_delivery P op a ->
        foreign_fault w a ->
        exit_status (run P B K G op w) = Some 1)
  /\ (forall op a w z,
        segv_delivery P op a ->
        owner w a z ->
        handler z = null_handler_ptr ->
        exit_status (run P B K G op w) = Some 1)
  /\ (forall fault_addr zone context w,
        full_build B = true ->
        hardmax zone < new_boundary P G fault_addr ->
        exit_status (default_handler P B K G fault_addr zone context w) = Some 1
        /\ exit_status (fatal_abort P B G context (msg_overflowed zone) true w)
           = Some 1)
  /\ (forall fault_addr zone context w,
        full_build B = true ->
        new_boundary P G fault_addr <= hardmax zone ->
        unprotect_result P K G zone (new_boundary P G fault_addr) w < 0 ->
        exit_status (default_handler P B K G fault_addr zone context w) = Some 1)
  /\ (forall sig info context w,
        exit_status (run P B K G (op_complex_bushandler sig info context) w)
        = Some 1)
  /\ (forall sig w,
        exit_status (run P B K G (op_simple_sighandler sig) w) = Some 1)
  /\ (forall sig context w,
        sig <> SIGSEGV P ->
        exit_status (run P B K G (op_complex_sighandler sig context) w) = Some 1)
  /\ (forall sig info context w,
        strange_delivery (SIGSEGV P) sig info ->
        exit_status (run P B K G (op_complex_segvhandler sig info context) w)
        = Some 1)
  /\ (forall op w,
        is_signal_handler op = true ->
        exit_status (run P B K G op w) = None ->
        exists a z,
          segv_delivery P op a
          /\ full_build B = true
          /\ owner w a z
          /\ handler z = default_handler_ptr
          /\ new_boundary P G a <= hardmax z)
  /\ (forall op a w z,
        segv_delivery P op a ->
        full_build B = true ->
        owner w a z ->
        handler z = default_handler_ptr ->
        hardmax z < new_boundary P G a ->
        exit_status (run P B K G op w) = Some 1)
  /\ (forall op a w z,
        segv_delivery P op a ->
        full_build B = true ->
        owner w a z ->
        handler z = default_handler_ptr ->
        new_boundary P G a <= hardmax z ->
        (forall t, mprotect_result K t (redzone z)
                     (wrap P (new_boundary P G a - redzone z))
                     (Z.lor (PROT_READ P) (PROT_WRITE P)) < 0) ->
        exit_status (run P B K G op w) = Some 1).
Proof.
  split; [intros op w; apply exits_1_run|].
  split; [intros w; split; [apply setup_signal_fails|apply setup_signal_succeeds]|].
  split; [intros op a w Hop Hforeign; eapply unhandled_segv_aborts; eauto|].
  split; [intros op a w z Hop Howner Hnull; eapply unhandled_segv_aborts; eauto|].
  split.
  { intros fault_addr zone context w Hfull Hgt. split.
    - now rewrite default_handler_overflows.
    - now rewrite fatal_abort_spec. }
  split.
  { intros fault_addr zone context w Hfull Hle Hfail.
    now rewrite default_handler_refused. }
  split; [intros; apply aborts_complex_bushandler|].
  split; [intros; apply aborts_simple_sighandler|].
  split; [intros sig context w Hsig; now apply aborts_complex_sighandler_other|].
  split; [intros sig info context w Hs; now apply aborts_complex_segvhandler_strange|].
  split.
  { intros op w Hop Hret.
    destruct (signal_handler_returns P B K G op w Hop Hret)
      as (a & context & w1 & w2 & Hdel & Hw1 & Hrun).
    destruct (try_munprotect_handled P B K G a context w1 w2 Hrun)
      as (Hfull & z & Howner & Hdefault & Hle).
    exists a, z. repeat (split; [assumption|]).
    split; [|now split].
    eapply owner_same_zones; [symmetry; exact Hw1|exact Howner]. }
  split.
  { intros op a w z Hop Hfull Howner Hdefault Hgt.
    eapply ungrowable_segv_aborts; eauto. }
  intros op a w z Hop Hfull Howner Hdefault Hle Hrefuse.
  eapply ungrowable_segv_aborts; eauto.
Qed.

Lemma unrecoverable_exit_status_1_witness :
  exit_status (run linux_x86 siginfo_build refusing_os (quiet [])
                 op_setup_signal (start_world [detstack])) = Some 1
  /\ exit_status (run linux_x86 siginfo_build obliging_os (quiet [])
                    (op_complex_segvhandler 11 (Some stray_fault) a_context)
                    (start_world [upper_zone; lower_zone])) = Some 1
  /\ exit_status (run linux_x86 siginfo_build obliging_os (quiet [])
                    (op_complex_segvhandler 11 (Some refused_fault) a_context)
                    (start_world [upper_zone; lower_zone])) = Some 1
  /\ exit_status (default_handler linux_x86 siginfo_build obliging_os (quiet [])
                    36864 detstack_near_ceiling ceiling_context
                    (start_world [detstack_near_ceiling])) = Some 1
  /\ exit_status (default_handler linux_x86 siginfo_build refusing_os (quiet [])
                    12112 detstack a_context (start_world [detstack])) = Some 1
  /\ exit_status (run linux_x86 sigcontext_build obliging_os (quiet [])
                    (op_complex_sighandler 7 a_context) (start_world [detstack]))
     = Some 1
  /\ exit_status (run linux_x86 sigcontext_build obliging_os (quiet [])
                    (op_complex_sighandler 11 ceiling_context)
                    (start_world [detstack_near_ceiling])) = Some 1.
Proof.
  destruct (unrecoverable_exit_status_1 linux_x86 siginfo_build refusing_os (quiet []))
    as (_ & Hsetup & _ & _ & _ & Hrefused & _).
  destruct (unrecoverable_exit_status_1 linux_x86 siginfo_build obliging_os (quiet []))
    as (_ & _ & Hforeign & Hpolicy & Hoverflow & _ & _).
  destruct (unrecoverable_exit_status_1 linux_x86 sigcontext_build obliging_os
              (quiet []))
    as (_ & _ & _ & _ & _ & _ & _ & _ & Hbus & _ & _ & Hsegv_overflow & _).
  split; [|split; [|split; [|split; [|split; [|split]]]]];
    [| | | | |apply Hbus; discriminate
     |apply (Hsegv_overflow _ 36864 _ detstack_near_ceiling);
      [apply (delivery_sigcontext linux_x86 ceiling_context)
      |reflexivity
      |exists [], []; repeat split; try (cbn; lia); constructor
      |reflexivity
      |vm_compute; reflexivity]].
  - apply Hsetup. cbn. right. left. discriminate.
  - apply (Hforeign _ 64).
    + apply (delivery_siginfo linux_x86 stray_fault a_context eq_refl).
    + repeat constructor; unfold in_redzone; cbn; lia.
  - apply (Hpolicy _ 12100 _ lower_zone).
    + apply (delivery_siginfo linux_x86 refused_fault a_context eq_refl).
    + exists [upper_zone], []. repeat split; try (cbn; lia).
      repeat constructor; unfold in_redzone; cbn; lia.
    + reflexivity.
  - apply Hoverflow; [reflexivity|vm_compute; reflexivity].
  - apply Hrefused; [reflexivity|vm_compute; discriminate|vm_compute; reflexivity].
Defined.

(** * Further properties of the handlers *)

(** ** What a successful growth achieves *)

(** X1.  When [default_handler] returns in the build that has it, for a fault
    address not below the redzone and without wrap-around, the whole faulted
    word lies below the new redzone: the address is no longer in the zone's
    [redzone, top] range, so the same access cannot fault on this zone again;
    the new redzone is aligned and not above [hardmax]. *)
Theorem default_handler_unprotects_fault_word
    P B K G fault_addr zone context w b zone' w' :
  full_build B = true ->
  sane P G ->
  no_wrap P G fault_addr ->
  redzone zone <= fault_addr ->
  default_handler P B K G fault_addr zone context w = Ret (b, zone') w' ->
  fault_addr + sizeof_Word P <= redzone zone'
  /\ ~ in_redzone zone' fault_addr
  /\ redzone zone' <= hardmax zone'
  /\ redzone zone' mod unit G = 0.
Proof.
  intros Hfull Hsane Hnw Hmatch Hrun.
  destruct (Z.le_gt_cases (new_boundary P G fault_addr) (hardmax zone)) as [Hle|Hgt].
  - destruct (Z.le_gt_cases 0
                (unprotect_result P K G zone (new_boundary P G fault_addr) w))
      as [Hok|Hfail].
    + rewrite default_handler_grows in Hrun by assumption.
      injection Hrun as _ <- _.
      pose proof (new_boundary_above P G fault_addr Hsane Hnw) as Habove.
      destruct Hsane as [Hunit Hword]. cbn [redzone hardmax set_redzone].
      repeat split; try lia.
      * unfold in_redzone; cbn. lia.
      * rewrite new_boundary_exact by (assumption || now split).
        apply ceiling_multiple_aligned.
    + rewrite default_handler_refused in Hrun by assumption. discriminate.
  - rewrite default_handler_overflows in Hrun by assumption. discriminate.
Qed.

Lemma default_handler_unprotects_fault_word_witness :
  12112 + 4 <= redzone (set_redzone detstack 12288)
  /\ ~ in_redzone (set_redzone detstack 12288) 12112.
Proof.
  destruct (default_handler_unprotects_fault_word linux_x86 siginfo_build
              obliging_os (quiet []) 12112 detstack a_context
              (start_world [detstack]) true (set_redzone detstack 12288)
              {| used_memory_zones := [detstack];
                 trace := [E_mprotect 12032 256 3] |})
    as (Hword & Hout & _).
  - reflexivity.
  - unfold sane; cbn; lia.
  - split; [lia|vm_compute; reflexivity].
  - cbn; lia.
  - reflexivity.
  - split; assumption.
Defined.

(** X2.  [default_handler] never unprotects memory past [hardmax]: for a
    fault address not below the redzone and without wrap-around, every
    [mprotect] call it makes, whatever the outcome, starts at the current
    redzone, has a positive length that ends exactly at the rounded
    boundary, which is not above [hardmax], and asks for read and write
    access.  In particular no protection is changed when the zone
    overflows. *)
Theorem default_handler_unprotects_within_hardmax
    P B K G fault_addr zone context w :
  sane P G ->
  no_wrap P G fault_addr ->
  0 <= redzone zone <= fault_addr ->
  exists t',
    trace (world_of (default_handler P B K G fault_addr zone context w))
    = trace w ++ t'
    /\ forall addr len prot,
         In (E_mprotect addr len prot) t' ->
         addr = redzone zone
         /\ 0 < len
         /\ addr + len = new_boundary P G fault_addr
         /\ addr + len <= hardmax zone
         /\ prot = Z.lor (PROT_READ P) (PROT_WRITE P).
Proof.
  intros Hsane Hnw [Hred Hmatch].
  assert (Hcall : forall addr len prot,
             new_boundary P G fault_addr <= hardmax zone ->
             E_mprotect addr len prot
             = unprotect_call P zone (new_boundary P G fault_addr) ->
             addr = redzone zone
             /\ 0 < len
             /\ addr + len = new_boundary P G fault_addr
             /\ addr + len <= hardmax zone
             /\ prot = Z.lor (PROT_READ P) (PROT_WRITE P)).
  { intros addr len prot Hle Heq. unfold unprotect_call in Heq.
    injection Heq as -> -> ->.
    pose proof (new_boundary_above P G fault_addr Hsane Hnw) as Habove.
    pose proof (new_boundary_exact P G fault_addr Hsane Hnw) as Hexact.
    destruct Hsane as [Hunit Hword]. destruct Hnw as [_ Hend].
    unfold wrap. rewrite Z.mod_small by lia. repeat split; lia. }
  destruct (full_build B) eqn:Hfull.
  - destruct (Z.le_gt_cases (new_boundary P G fault_addr) (hardmax zone)) as [Hle|Hgt].
    + destruct (Z.le_gt_cases 0
                  (unprotect_result P K G zone (new_boundary P G fault_addr) w))
        as [Hok|Hfail].
      * rewrite default_handler_grows by assumption. eexists. split; [reflexivity|].
        intros addr len prot Hin. apply Hcall; [assumption|].
        unfold debug in Hin. destruct (memdebug G); cbn in Hin;
          repeat (destruct Hin as [Hin|Hin]; try discriminate; try tauto);
          now symmetry.
      * rewrite default_handler_refused by assumption. eexists. split; [reflexivity|].
        intros addr len prot Hin. apply Hcall; [assumption|].
        unfold debug in Hin. destruct (memdebug G); cbn in Hin;
          repeat (destruct Hin as [Hin|Hin]; try discriminate; try tauto);
          now symmetry.
    + rewrite default_handler_overflows by assumption. eexists. split; [reflexivity|].
      intros addr len prot Hin. exfalso.
      unfold debug, dump_output in Hin.
      destruct (memdebug G), (MR_LOWLEVEL_DEBUG B); cbn in Hin;
        repeat (destruct Hin as [Hin|Hin]; try discriminate; try tauto);
        try (apply in_app_or in Hin; destruct Hin as [Hin|Hin];
             [apply in_map_iff in Hin; destruct Hin as (r & Hr & _); discriminate
             |cbn in Hin; destruct Hin as [Hin|[]]; discriminate]).
  - rewrite default_handler_stub by assumption. exists []. cbn.
    split; [now rewrite app_nil_r|intros ? ? ? []].
Qed.

Lemma default_handler_unprotects_within_hardmax_witness :
  exists t',
    trace (world_of (default_handler linux_x86 siginfo_build obliging_os
                       (verbose []) 12112 detstack a_context
                       (start_world [detstack])))
    = [] ++ t'
    /\ forall addr len prot,
         In (E_mprotect addr len prot) t' ->
         addr = 12032 /\ 0 < len /\ addr + len = 12288 /\ addr + len <= 36864
         /\ prot = 3.
Proof.
  apply (default_handler_unprotects_within_hardmax linux_x86 siginfo_build
           obliging_os (verbose []) 12112 detstack a_context
           (start_world [detstack])).
  - unfold sane; cbn; lia.
  - split; [lia|vm_compute; reflexivity].
  - cbn; lia.
Defined.

(** ** What the router changes *)

(** What [try_munprotect] leaves in the list of used zones, in the build
    that has it: nothing new unless the first zone that holds the address is
    bound to [default_handler] and the growth is granted. *)
Lemma try_munprotect_zones P B K G a context w :
  used_memory_zones (world_of (try_munprotect P B K G a context w))
  = used_memory_zones w
  \/ exists pre z post,
       used_memory_zones w = pre ++ z :: post
       /\ Forall (fun z' => ~ in_redzone z' a) pre
       /\ in_redzone z a
       /\ handler z = default_handler_ptr
       /\ new_boundary P G a <= hardmax z
       /\ try_munprotect P B K G a context w
          = Ret true
              {| used_memory_zones := pre ++ set_redzone z (new_boundary P G a) :: post;
                 trace := trace (world_of (try_munprotect P B K G a context w)) |}.
Proof.
  destruct (full_build B) eqn:Hfull;
    [|left; now rewrite try_munprotect_stub].
  destruct (first_owner_dec (used_memory_zones w) a)
    as [Hnone|(pre & z & post & Hw & Hpre & Hz)].
  - left. now rewrite try_munprotect_foreign.
  - rewrite (try_munprotect_owner P B K G pre z post a context w Hfull Hw Hpre Hz).
    destruct (handler z) eqn:Hhandler; cbn [call_handler].
    + set (w1 := log w _).
      destruct (Z.le_gt_cases (new_boundary P G a) (hardmax z)) as [Hle|Hgt].
      * destruct (Z.le_gt_cases 0 (unprotect_result P K G z (new_boundary P G a) w1))
          as [Hok|Hfail].
        -- right. exists pre, z, post.
           rewrite default_handler_grows by assumption.
           repeat (split; [assumption|]). reflexivity.
        -- left. now rewrite default_handler_refused.
      * left. now rewrite default_handler_overflows.
    + left. cbn. now symmetry.
Qed.

(** X3.  The router changes at most one zone, and only its redzone: after
    [try_munprotect], in every build and whatever the outcome, the list of
    used zones is as before, or it differs exactly at the first zone that
    holds the address, which is bound to [default_handler] and whose redzone
    is now the rounded boundary, not above its [hardmax].  Zones after the
    first match are untouched even if they hold the address too. *)
Theorem try_munprotect_changes_one_zone P B K G a context w :
  let zs' := used_memory_zones (world_of (try_munprotect P B K G a context w)) in
  zs' = used_memory_zones w
  \/ exists pre z post,
       used_memory_zones w = pre ++ z :: post
       /\ Forall (fun z' => ~ in_redzone z' a) pre
       /\ in_redzone z a
       /\ handler z = default_handler_ptr
       /\ new_boundary P G a <= hardmax z
       /\ zs' = pre ++ set_redzone z (new_boundary P G a) :: post.
Proof.
  cbv zeta.
  destruct (try_munprotect_zones P B K G a context w)
    as [Hsame|(pre & z & post & Hw & Hpre & Hz & Hh & Hle & Hrun)];
    [now left|right].
  exists pre, z, post. rewrite Hrun at 1.
  repeat (split; [assumption|]). reflexivity.
Qed.

(** X4.  A handled fault is settled.  When the router has returned true for
    an address whose first holder is a well placed zone, and no later zone
    holds the address, routing the same address again returns false and
    changes no zone: the zone that grew no longer holds the address. *)
Theorem handled_fault_is_settled P B K G a context context' w w' pre z post :
  full_build B = true ->
  sane P G ->
  used_memory_zones w = pre ++ z :: post ->
  Forall (fun z' => ~ in_redzone z' a) pre ->
  in_redzone z a ->
  placed P G z ->
  Forall (fun z' => ~ in_redzone z' a) post ->
  try_munprotect P B K G a context w = Ret true w' ->
  used_memory_zones w' = pre ++ set_redzone z (new_boundary P G a) :: post
  /\ exit_status (try_munprotect P B K G a context' w') = None
  /\ try_munprotect P B K G a context' w'
     = Ret false
         (log w' (debug G ([E_fprintf_stderr (msg_caught P a)]
                           ++ checking P (used_memory_zones w')
                           ++ [E_fprintf_stderr msg_no_redzone]))).
Proof.
  intros Hfull Hsane Hw Hpre Hz Hplaced Hpost Hrun.
  assert (Hzones : used_memory_zones w'
                   = pre ++ set_redzone z (new_boundary P G a) :: post).
  { rewrite (try_munprotect_owner P B K G pre z post a context w Hfull Hw Hpre Hz)
      in Hrun.
    destruct (handler z); cbn [call_handler] in Hrun; [|discriminate].
    set (w1 := log w _) in Hrun.
    destruct (Z.le_gt_cases (new_boundary P G a) (hardmax z)) as [Hle|Hgt].
    - destruct (Z.le_gt_cases 0 (unprotect_result P K G z (new_boundary P G a) w1))
        as [Hok|Hfail].
      + rewrite default_handler_grows in Hrun by assumption.
        injection Hrun as <-. reflexivity.
      + rewrite default_handler_refused in Hrun by assumption. discriminate.
    - rewrite default_handler_overflows in Hrun by assumption. discriminate. }
  assert (Hforeign : Forall (fun z' => ~ in_redzone z' a) (used_memory_zones w')).
  { rewrite Hzones. apply Forall_app. split; [assumption|].
    constructor; [|assumption].
    pose proof (placed_no_wrap P G z a Hsane Hplaced Hz) as Hnw.
    pose proof (new_boundary_above P G a Hsane Hnw) as Habove.
    destruct Hsane as [_ Hword]. unfold in_redzone; cbn. lia. }
  split; [assumption|].
  rewrite (try_munprotect_foreign P B K G a context' w' Hfull Hforeign).
  split; reflexivity.
Qed.

Lemma handled_fault_is_settled_witness :
  try_munprotect linux_x86 siginfo_build obliging_os (quiet []) 12112 a_context
    {| used_memory_zones := [set_redzone detstack 12288];
       trace := [E_mprotect 12032 256 3] |}
  = Ret false
      {| used_memory_zones := [set_redzone detstack 12288];
         trace := [E_mprotect 12032 256 3] |}.
Proof.
  destruct (handled_fault_is_settled linux_x86 siginfo_build obliging_os (quiet [])
              12112 a_context a_context (start_world [detstack])
              {| used_memory_zones := [set_redzone detstack 12288];
                 trace := [E_mprotect 12032 256 3] |}
              [] detstack [])
    as (_ & _ & Hagain).
  - reflexivity.
  - unfold sane; cbn; lia.
  - reflexivity.
  - constructor.
  - unfold in_redzone; cbn; lia.
  - split; [cbn; lia|vm_compute; reflexivity].
  - constructor.
  - reflexivity.
  - rewrite Hagain. reflexivity.
Defined.

(** ** Relations kept by every operation *)

Section Zone_relation.

Variable P : platform.
Variable B : build.
Variable K : os.
Variable G : globals.
Variable R : list MemoryZone -> list MemoryZone -> Prop.
Hypothesis R_refl : forall zs, R zs zs.
Hypothesis R_trans : forall zs1 zs2 zs3, R zs1 zs2 -> R zs2 zs3 -> R zs1 zs3.
Hypothesis R_router :
  forall a context, steps_within R (try_munprotect P B K G a context).

Lemma keeps_within {A} (m : M A) : keeps_zones m -> steps_within R m.
Proof. intros Hm w. rewrite Hm. apply R_refl. Qed.

Lemma within_bind {A C} (m : M A) (k : A -> M C) :
  steps_within R m -> (forall a, steps_within R (k a)) -> steps_within R (bind m k).
Proof.
  intros Hm Hk w. unfold bind. specialize (Hm w).
  destruct (m w) as [a w'|s w']; cbn in *; [|assumption].
  eapply R_trans; [exact Hm|apply Hk].
Qed.

(** Solve [steps_within R m] by following the shape of [m]. *)
Ltac within :=
  lazymatch goal with
  | |- steps_within _ (bind _ _) => apply within_bind; [within | intro; within]
  | |- steps_within _ (if ?b then _ else _) => destruct b; within
  | |- steps_within _ (match ?x with Some _ => _ | None => _ end) =>
      destruct x; within
  | |- steps_within _ (let _ := _ in _) => cbv zeta; within
  | |- steps_within _ (try_munprotect _ _ _ _ _ _) => apply R_router
  | |- _ => apply keeps_within; keeps
  end.

(** Whatever the router keeps is kept by every operation other than a
    direct call of [default_handler]. *)
Lemma run_within op :
  is_direct_default_handler op = false -> steps_within R (run P B K G op).
Proof.
  intros Hop. destruct op; try discriminate; cbn [run].
  - apply keeps_within, keeps_setup_signal.
  - unfold complex_sighandler. within.
  - apply keeps_within, keeps_complex_bushandler.
  - unfold complex_segvhandler. within.
  - apply keeps_within, keeps_simple_sighandler.
  - within.
  - apply keeps_within.
    apply (run_keeps P B K G (op_null_handler i fault_addr context) eq_refl).
  - apply keeps_within, keeps_fatal_abort.
  - apply keeps_within, keeps_print_dump_stack.
Qed.

End Zone_relation.

Lemma store_zone_Forall (inv : MemoryZone -> Prop) i z' zs :
  Forall inv zs -> inv z' -> Forall inv (store_zone i z' zs).
Proof.
  intros Hzs Hz'. revert i. induction Hzs as [|y zs Hy Hzs IH]; intros [|i]; cbn;
    try constructor; auto.
Qed.

(** A property of zones that survives a growth step survives every
    operation. *)
Lemma run_keeps_invariant P B K G (inv : MemoryZone -> Prop) op w :
  (forall z a,
      inv z -> redzone z <= a -> new_boundary P G a <= hardmax z ->
      inv (set_redzone z (new_boundary P G a))) ->
  admissible P G op w ->
  Forall inv (used_memory_zones w) ->
  Forall inv (used_memory_zones (world_of (run P B K G op w))).
Proof.
  intros Hstep Hadm.
  destruct (is_direct_default_handler op) eqn:Hop.
  - destruct op; try discriminate. cbn [run]. intros Hinv.
    destruct Hadm as (z & Hz & Hmatch & _).
    unfold on_zone, bind at 1, get_used_memory_zones. rewrite Hz. unfold bind.
    assert (Hinvz : inv z).
    { rewrite Forall_forall in Hinv. apply Hinv. eapply nth_error_In; eauto. }
    destruct (full_build B) eqn:Hfull.
    + destruct (Z.le_gt_cases (new_boundary P G fault_addr) (hardmax z)) as [Hle|Hgt].
      * destruct (Z.le_gt_cases 0
                    (unprotect_result P K G z (new_boundary P G fault_addr) w))
          as [Hok|Hfail].
        -- rewrite default_handler_grows by assumption. cbn.
           apply store_zone_Forall; auto.
        -- rewrite default_handler_refused by assumption. exact Hinv.
      * rewrite default_handler_overflows by assumption. exact Hinv.
    + rewrite default_handler_stub by assumption. cbn.
      apply store_zone_Forall; auto.
  - clear Hadm. revert w.
    change (steps_within (fun zs zs' => Forall inv zs -> Forall inv zs')
                         (run P B K G op)).
    apply run_within; [auto|auto| |assumption].
    intros a context w Hinv.
    destruct (try_munprotect_zones P B K G a context w)
      as [->|(pre & z & post & Hw & _ & Hz & _ & Hle & ->)]; [assumption|].
    cbn. rewrite Hw in Hinv. apply Forall_app in Hinv. destruct Hinv as [Hpre Hrest].
    inversion Hrest as [|? ? Hinvz Hpost]; subst.
    apply Forall_app. split; [assumption|]. constructor; [|assumption].
    apply Hstep; [assumption|apply Hz|assumption].
Qed.

(** X5.  An induction principle for the zones: a property of a zone that is
    kept when the redzone is moved to the rounded boundary of an address not
    below it, the boundary being not above [hardmax], holds of every used
    zone in every reachable world if it holds of every used zone at the
    start.  Nothing else the file does can break a property of a zone. *)
Theorem reachable_zone_invariant P B K G (inv : MemoryZone -> Prop) w0 w :
  (forall z a,
      inv z -> redzone z <= a -> new_boundary P G a <= hardmax z ->
      inv (set_redzone z (new_boundary P G a))) ->
  Forall inv (used_memory_zones w0) ->
  reachable P B K G w0 w ->
  Forall inv (used_memory_zones w).
Proof.
  intros Hstep Hstart Hreach. induction Hreach as [|w op _ IH Hadm]; [assumption|].
  now apply run_keeps_invariant.
Qed.

Lemma reachable_zone_invariant_witness :
  Forall (fun z => name z = "detstack" /\ top z = 12288)
    (used_memory_zones
       (world_of (run linux_x86 siginfo_build obliging_os (quiet [])
                      (op_complex_segvhandler 11
                         (Some {| si_signo := 11; si_code := 2; si_addr := 12112 |})
                         a_context)
                      (start_world [detstack])))).
Proof.
  apply (reachable_zone_invariant linux_x86 siginfo_build obliging_os (quiet [])
           (fun z => name z = "detstack" /\ top z = 12288)
           (start_world [detstack])).
  - intros z a Hz _ _. exact Hz.
  - repeat constructor.
  - apply reachable_step; [apply reachable_start|exact I].
Defined.

(** With a unit that is a power of two dividing the address space, the
    boundary [default_handler] computes is a multiple of the unit, also when
    the addition wraps around. *)
Lemma new_boundary_aligned P G a :
  unit_is_power_of_2 P G -> new_boundary P G a mod unit G = 0.
Proof.
  intros (k & [Hk Hbits] & Hunit). unfold new_boundary, round_up, wrap.
  rewrite Z.mod_mod_divide.
  - apply ceiling_multiple_aligned.
  - exists (2 ^ (ptr_bits P - k)). rewrite Hunit, <- Z.pow_add_r by lia.
    f_equal. lia.
Qed.

(** X6.  Redzones stay aligned.  When the unit is a power of two that
    divides the size of the address space, every boundary [default_handler]
    computes is a multiple of the unit, wrap-around or not; hence if every
    used zone starts with an aligned redzone, every used zone has an aligned
    redzone in every reachable world. *)
Theorem redzones_stay_aligned P B K G w0 w :
  unit_is_power_of_2 P G ->
  Forall (fun z => redzone z mod unit G = 0) (used_memory_zones w0) ->
  reachable P B K G w0 w ->
  Forall (fun z => redzone z mod unit G = 0) (used_memory_zones w)
  /\ forall a, new_boundary P G a mod unit G = 0.
Proof.
  intros Hunit Hstart Hreach. split; [|intro a; now apply new_boundary_aligned].
  induction Hreach as [|w op _ IH Hadm]; [assumption|].
  apply run_keeps_invariant; [|assumption..].
  intros z a _ _ _. cbn. now apply new_boundary_aligned.
Qed.

Lemma redzones_stay_aligned_witness :
  Forall (fun z => redzone z mod 4096 = 0)
    (used_memory_zones
       (world_of (run linux_x86 siginfo_build obliging_os (quiet [])
                      (op_try_munprotect 12288 a_context)
                      (start_world [upper_zone; detstack_near_ceiling])))).
Proof.
  apply (redzones_stay_aligned linux_x86 siginfo_build obliging_os (quiet [])
           (start_world [upper_zone; detstack_near_ceiling])).
  - exists 12. split; [cbn; lia|reflexivity].
  - repeat constructor.
  - apply reachable_step; [apply reachable_start|exact I].
Defined.

Lemma Forall2_refl_of {A} (T : A -> A -> Prop) (l : list A) :
  (forall x, T x x) -> Forall2 T l l.
Proof. intros Hrefl. induction l; constructor; auto. Qed.

Lemma Forall2_trans_of {A} (T : A -> A -> Prop) (l1 l2 l3 : list A) :
  (forall x y z, T x y -> T y z -> T x z) ->
  Forall2 T l1 l2 -> Forall2 T l2 l3 -> Forall2 T l1 l3.
Proof.
  intros Htrans H12. revert l3. induction H12; intros l3 H23;
    inversion H23; subst; constructor; eauto.
Qed.

(** X7.  A zone bound to [null_handler] never changes.  Over every operation
    other than a direct call of [default_handler] on it (set-up, every signal
    handler, the router, the abort path), in every build and whatever the
    outcome, the used zones keep their number, order and handlers, and each
    zone bound to [null_handler] is exactly as before. *)
Theorem null_zones_never_change P B K G op w :
  is_direct_default_handler op = false ->
  Forall2 (fun z z' => handler z' = handler z
                       /\ (handler z = null_handler_ptr -> z' = z))
          (used_memory_zones w)
          (used_memory_zones (world_of (run P B K G op w))).
Proof.
  intros Hop. revert w.
  change (steps_within (Forall2 refusal_kept) (run P B K G op)).
  apply run_within; [| | |assumption].
  - intros zs. apply Forall2_refl_of. intros z. now split.
  - intros zs1 zs2 zs3. apply Forall2_trans_of.
    intros x y z [Hxy Hx] [Hyz Hy]. split; [congruence|].
    intros Hnull. rewrite Hy by congruence. now apply Hx.
  - intros a context w.
    destruct (try_munprotect_zones P B K G a context w)
      as [->|(pre & z & post & Hw & _ & _ & Hdefault & _ & ->)].
    + apply Forall2_refl_of. intros z. now split.
    + cbn. rewrite Hw. apply Forall2_app.
      * apply Forall2_refl_of. intros y. now split.
      * constructor.
        -- split; [reflexivity|]. congruence.
        -- apply Forall2_refl_of. intros y. now split.
Qed.

Lemma null_zones_never_change_witness :
  Forall2 (fun z z' => handler z' = handler z
                       /\ (handler z = null_handler_ptr -> z' = z))
    [upper_zone; lower_zone]
    (used_memory_zones
       (world_of (run linux_x86 siginfo_build obliging_os (quiet [])
                      (op_try_munprotect 12288 a_context)
                      (start_world [upper_zone; lower_zone])))).
Proof.
  apply (null_zones_never_change linux_x86 siginfo_build obliging_os (quiet [])
           (op_try_munprotect 12288 a_context)
           (start_world [upper_zone; lower_zone]) eq_refl).
Defined.

(** ** The build without the capability *)

(** Solve [aborts m] for a computation that ends in [exit(1)]. *)
Ltac never_returning :=
  lazymatch goal with
  | |- aborts (exit_from_signal_handler _ _) => apply aborts_exit_from_signal_handler
  | |- aborts (exit 1) => apply aborts_exit
  | |- aborts (bind _ _) => apply aborts_bind; [exits | intro; never_returning]
  | |- aborts (if ?b then _ else _) => destruct b; never_returning
  end.

(** X8.  Without [mprotect] or without fault information the router and the
    default handler are stubs: [default_handler] and [try_munprotect] return
    false and do nothing, no operation changes a used zone, and every
    delivery of a segmentation violation ends the process with status 1,
    wherever the address lies. *)
Theorem stub_build_never_grows P B K G :
  full_build B = false ->
  (forall fault_addr zone context w,
      default_handler P B K G fault_addr zone context w = Ret (false, zone) w)
  /\ (forall addr context w, try_munprotect P B K G addr context w = Ret false w)
  /\ (forall op w,
        used_memory_zones (world_of (run P B K G op w)) = used_memory_zones w)
  /\ (forall op a w,
        segv_delivery P op a -> exit_status (run P B K G op w) = Some 1).
Proof.
  intros Hstub. split; [|split; [|split]].
  - intros. now apply default_handler_stub.
  - intros. now apply try_munprotect_stub.
  - intros op. change (steps_within (fun zs zs' => zs' = zs) (run P B K G op)).
    destruct (is_direct_default_handler op) eqn:Hop.
    + destruct op; try discriminate. cbn [run]. intro w.
      unfold on_zone, bind at 1, get_used_memory_zones.
      destruct (nth_error (used_memory_zones w) i) as [z|] eqn:Hz; [|reflexivity].
      unfold bind. rewrite default_handler_stub by assumption. cbn.
      now apply store_zone_same.
    + apply run_within; [reflexivity| |  |assumption].
      * intros zs1 zs2 zs3. congruence.
      * intros a context w. now rewrite try_munprotect_stub.
  - intros op a w Hop.
    destruct Hop as [context|info context Hsig]; cbn [run].
    + unfold complex_sighandler. cbv zeta. rewrite Z.eqb_refl.
      apply unhandled_fault_aborts.
      * exits.
      * keeps.
      * never_returning.
      * intros w1 _. exists w1. now apply try_munprotect_stub.
    + unfold complex_segvhandler. rewrite Hsig, Z.eqb_refl. cbn [negb orb].
      apply unhandled_fault_aborts.
      * exits.
      * keeps.
      * never_returning.
      * intros w1 _. exists w1. now apply try_munprotect_stub.
Qed.

Lemma stub_build_never_grows_witness :
  exit_status (run linux_x86 sigcontext_stub_build obliging_os (quiet [])
                 (op_complex_sighandler 11 a_context) (start_world [detstack]))
  = Some 1
  /\ used_memory_zones
       (world_of (run linux_x86 sigcontext_stub_build obliging_os (quiet [])
                      (op_complex_sighandler 11 a_context) (start_world [detstack])))
     = [detstack].
Proof.
  destruct (stub_build_never_grows linux_x86 sigcontext_stub_build obliging_os
              (quiet []) eq_refl) as (_ & _ & Hzones & Hfatal).
  split.
  - apply (Hfatal _ 12112). apply (delivery_sigcontext linux_x86 a_context).
  - apply Hzones.
Defined.

(** ** Raw output on the abort path *)

Lemma dump_output_raw B G : Forall raw_write (dump_output B G).
Proof.
  unfold dump_output. destruct (MR_LOWLEVEL_DEBUG B).
  - constructor; [reflexivity|]. apply Forall_app. split.
    + apply Forall_forall. intros e He. apply in_map_iff in He.
      destruct He as (r & <- & _). reflexivity.
    + repeat constructor.
  - repeat constructor.
Qed.

(** X9.  The abort path writes with raw writes only.  Everything
    [print_dump_stack] and [fatal_abort] put out is a [write] to the error
    stream or the raw trace report on it: no [fprintf], [perror] or [fflush].
    With [memdebug] off the same holds of a whole call of [default_handler]
    that ends in a zone overflow. *)
Theorem abort_path_writes_raw P B K G :
  (forall w, exists t',
      print_dump_stack B G w = Ret tt (log w t') /\ Forall raw_write t')
  /\ (forall context main_msg dump w, exists t',
        fatal_abort P B G context main_msg dump w = Exit 1 (log w t')
        /\ Forall raw_write t')
  /\ (forall fault_addr zone context w,
        memdebug G = false ->
        full_build B = true ->
        hardmax zone < new_boundary P G fault_addr ->
        exists t',
          default_handler P B K G fault_addr zone context w = Exit 1 (log w t')
          /\ Forall raw_write t').
Proof.
  split; [|split].
  - intros w. eexists. split; [apply print_dump_stack_spec|apply dump_output_raw].
  - intros context main_msg dump w. eexists. split; [apply fatal_abort_spec|].
    repeat (constructor; [reflexivity|]).
    destruct dump; [apply dump_output_raw|constructor].
  - intros fault_addr zone context w Hquiet Hfull Hgt. eexists.
    split; [now apply default_handler_overflows|].
    unfold debug. rewrite Hquiet. cbn [app].
    repeat (constructor; [reflexivity|]). apply dump_output_raw.
Qed.

Lemma abort_path_writes_raw_witness :
  exists t',
    default_handler linux_x86 debug_build obliging_os
      (quiet ["main"; "main"; "loop"]) 36864 detstack_near_ceiling
      ceiling_context (start_world [detstack_near_ceiling])
    = Exit 1 (log (start_world [detstack_near_ceiling]) t')
    /\ Forall raw_write t'.
Proof.
  destruct (abort_path_writes_raw linux_x86 debug_build obliging_os
              (quiet ["main"; "main"; "loop"])) as (_ & _ & Hoverflow).
  apply Hoverflow; [reflexivity|reflexivity|vm_compute; reflexivity].
Defined.

(** ** The signal handlers around the router *)

Lemma exit_from_signal_handler_spec B G w :
  exit_from_signal_handler B G w = Exit 1 (log w (final_report B G)).
Proof.
  unfold exit_from_signal_handler, final_report, bind.
  rewrite print_dump_stack_spec. cbn. now rewrite !log_log.
Qed.

Lemma explain_segv_spec P B info context w :
  explain_segv P B (Some info) context w
  = Ret tt (log w (segv_explanation P B info context)).
Proof.
  unfold explain_segv, segv_explanation, segv_cause, address_line.
  destruct (0 <? si_code info); [|exec; reflexivity].
  destruct (si_code info =? SEGV_MAPERR P);
    [|destruct (si_code info =? SEGV_ACCERR P)]; exec; reflexivity.
Qed.

(** With [memdebug] off a granted growth leaves nothing in the trace but the
    protection change. *)
Lemma try_munprotect_quiet_growth P B K G a context w pre z post :
  memdebug G = false ->
  full_build B = true ->
  used_memory_zones w = pre ++ z :: post ->
  Forall (fun z' => ~ in_redzone z' a) pre ->
  in_redzone z a ->
  handler z = default_handler_ptr ->
  new_boundary P G a <= hardmax z ->
  0 <= mprotect_result K (trace w) (redzone z)
         (wrap P (new_boundary P G a - redzone z))
         (Z.lor (PROT_READ P) (PROT_WRITE P)) ->
  try_munprotect P B K G a context w
  = Ret true
      {| used_memory_zones := pre ++ set_redzone z (new_boundary P G a) :: post;
         trace := trace w ++ [unprotect_call P z (new_boundary P G a)] |}.
Proof.
  intros Hquiet Hfull Hw Hpre Hz Hdefault Hle Hok.
  rewrite (try_munprotect_owner P B K G pre z post a context w Hfull Hw Hpre Hz).
  rewrite Hdefault. cbn [call_handler]. unfold debug. rewrite Hquiet, log_nil.
  rewrite default_handler_grows; [|assumption|assumption|].
  - unfold debug. rewrite Hquiet. reflexivity.
  - unfold unprotect_result, debug. rewrite Hquiet, app_nil_r. assumption.
Qed.

(** X10.  A handled fault is silent.  With [memdebug] off, when a
    segmentation violation is delivered (under either convention that carries
    the address) for an address whose first holder is bound to
    [default_handler], the rounded boundary is not above [hardmax] and the
    protection change is granted, the signal handler returns; the only thing
    the process has done is that one [mprotect] call, nothing is printed, and
    the only change to the zones is the holder's new redzone. *)
Theorem handled_fault_is_silent P B K G op a w pre z post :
  memdebug G = false ->
  full_build B = true ->
  segv_delivery P op a ->
  used_memory_zones w = pre ++ z :: post ->
  Forall (fun z' => ~ in_redzone z' a) pre ->
  in_redzone z a ->
  handler z = default_handler_ptr ->
  new_boundary P G a <= hardmax z ->
  0 <= mprotect_result K (trace w) (redzone z)
         (wrap P (new_boundary P G a - redzone z))
         (Z.lor (PROT_READ P) (PROT_WRITE P)) ->
  run P B K G op w
  = Ret tt
      {| used_memory_zones := pre ++ set_redzone z (new_boundary P G a) :: post;
         trace := trace w ++ [E_mprotect (redzone z)
                                (wrap P (new_boundary P G a - redzone z))
                                (Z.lor (PROT_READ P) (PROT_WRITE P))] |}.
Proof.
  intros Hquiet Hfull Hop Hw Hpre Hz Hdefault Hle Hok.
  pose proof (fun context =>
                try_munprotect_quiet_growth P B K G a context w pre z post
                  Hquiet Hfull Hw Hpre Hz Hdefault Hle Hok) as Hrouter.
  destruct Hop as [context|info context Hsig]; cbn [run].
  - unfold complex_sighandler. cbv zeta. rewrite Z.eqb_refl, Hquiet.
    unfold bind, when, ret. rewrite Hrouter. reflexivity.
  - unfold complex_segvhandler. rewrite Hsig, Z.eqb_refl, Hquiet. cbn [negb orb].
    unfold bind, when, ret. rewrite Hrouter. reflexivity.
Qed.

Lemma handled_fault_is_silent_witness :
  run linux_x86 siginfo_build obliging_os (quiet [])
    (op_complex_segvhandler 11 (Some growable_fault) a_context)
    (start_world [detstack])
  = Ret tt {| used_memory_zones := [set_redzone detstack 12288];
              trace := [E_mprotect 12032 256 3] |}
  /\ run linux_x86 sigcontext_build obliging_os (quiet [])
       (op_complex_sighandler 11 a_context) (start_world [detstack])
     = Ret tt {| used_memory_zones := [set_redzone detstack 12288];
                 trace := [E_mprotect 12032 256 3] |}.
Proof.
  split.
  - apply (handled_fault_is_silent linux_x86 siginfo_build obliging_os (quiet [])
             _ 12112 (start_world [detstack]) [] detstack []).
    + reflexivity.
    + reflexivity.
    + apply (delivery_siginfo linux_x86 growable_fault a_context eq_refl).
    + reflexivity.
    + constructor.
    + unfold in_redzone; cbn; lia.
    + reflexivity.
    + vm_compute; discriminate.
    + vm_compute; discriminate.
  - apply (handled_fault_is_silent linux_x86 sigcontext_build obliging_os (quiet [])
             _ 12112 (start_world [detstack]) [] detstack []).
    + reflexivity.
    + reflexivity.
    + apply (delivery_sigcontext linux_x86 a_context).
    + reflexivity.
    + constructor.
    + unfold in_redzone; cbn; lia.
    + reflexivity.
    + vm_compute; discriminate.
    + vm_compute; discriminate.
Defined.

(** X11.  An unhandled segmentation violation is explained exactly once.
    In the build with the router, when a well formed delivery to
    [complex_segvhandler] is for an address no used zone holds, the process
    ends with status 1 and its output is, in this order: the explanation of
    [explain_segv], the router's debugging lines (none with [memdebug] off),
    the trace report, the dump, the previous locations and the last line.
    The explanation comes first and once whether [memdebug] is on (printed
    before routing) or off (printed after routing has failed); when the
    signal code is positive it contains the line with the faulting
    address. *)
Theorem unhandled_segv_report P B K G info context w :
  full_build B = true ->
  si_signo info = SIGSEGV P ->
  foreign_fault w (si_addr info) ->
  complex_segvhandler P B K G (SIGSEGV P) (Some info) context w
  = Exit 1
      (log w (segv_explanation P B info context
              ++ debug G ([E_fprintf_stderr (msg_caught P (si_addr info))]
                          ++ checking P (used_memory_zones w)
                          ++ [E_fprintf_stderr msg_no_redzone])
              ++ [E_MR_trace_report]
              ++ final_report B G))
  /\ (0 < si_code info ->
      In (E_fprintf_stderr ("address involved: " +++ show_ptr P (si_addr info) +++ nl))
         (segv_explanation P B info context)).
Proof.
  intros Hfull Hsig Hforeign. split.
  - unfold complex_segvhandler. rewrite Hsig, Z.eqb_refl. cbn [negb orb].
    unfold debug. destruct (memdebug G) eqn:Hdbg; unfold bind, when; cbn [negb].
    + rewrite explain_segv_spec.
      rewrite (try_munprotect_foreign P B K G (si_addr info) context
                 (log w (segv_explanation P B info context)) Hfull Hforeign).
      unfold debug, ret, emit. rewrite Hdbg.
      rewrite exit_from_signal_handler_spec, !log_log. reflexivity.
    + unfold ret.
      rewrite (try_munprotect_foreign P B K G (si_addr info) context w Hfull Hforeign).
      unfold debug. rewrite Hdbg, log_nil.
      rewrite explain_segv_spec. unfold emit.
      rewrite exit_from_signal_handler_spec, !log_log. reflexivity.
  - intros Hcode. unfold segv_explanation.
    destruct (Z.ltb_spec 0 (si_code info)); [|lia].
    apply in_or_app. right. cbn. tauto.
Qed.

Lemma unhandled_segv_report_witness :
  trace (world_of
    (complex_segvhandler linux_x86 siginfo_build obliging_os (quiet []) 11
       (Some stray_fault) a_context (start_world [detstack])))
  = [E_fflush_stdout;
     E_fprintf_stderr (nl +++ "*** Mercury runtime: ");
     E_fprintf_stderr ("caught segmentation violation ***" +++ nl);
     E_fprintf_stderr "cause: ";
     E_fprintf_stderr ("address not mapped to object" +++ nl);
     E_fprintf_stderr ("PC at signal: 134513000 (8048168)" +++ nl);
     E_fprintf_stderr ("address involved: 0x40" +++ nl);
     E_MR_trace_report;
     E_write 2 dump_hint;
     E_dump_prev_locations;
     E_fprintf_stderr ("exiting from signal handler" +++ nl)].
Proof.
  destruct (unhandled_segv_report linux_x86 siginfo_build obliging_os (quiet [])
              stray_fault a_context (start_world [detstack])) as [Hrun _].
  - reflexivity.
  - reflexivity.
  - repeat constructor; unfold in_redzone; cbn; lia.
  - exact (f_equal (fun o => trace (world_of o)) Hrun).
Defined.

(** X12.  Only a well formed segmentation violation reaches the router.  A
    delivery to [complex_segvhandler] or [complex_bushandler] with another
    signal number, without a [siginfo_t], or with a [siginfo_t] of another
    signal ends the process with status 1 after the two-part "strange"
    banner, and a signal other than [SIGSEGV] delivered to
    [complex_sighandler] ends it after the report; in each case no zone is
    looked at or changed and [mprotect] is not called, even if the address
    lies in the redzone of a growable zone. *)
Theorem strange_delivery_is_fatal P B K G sig info context w :
  (strange_delivery (SIGSEGV P) sig info ->
   complex_segvhandler P B K G sig info context w
   = Exit 1 (log w [E_fprintf_stderr (nl +++ "*** Mercury runtime: ");
                    E_fprintf_stderr
                      ("caught strange segmentation violation ***" +++ nl)]))
  /\ (strange_delivery (SIGBUS P) sig info ->
      complex_bushandler P B G sig info context w
      = Exit 1 (log w [E_fflush_stdout;
                       E_fprintf_stderr (nl +++ "*** Mercury runtime: ");
                       E_fprintf_stderr ("caught strange bus error ***" +++ nl)]))
  /\ (sig <> SIGSEGV P ->
      complex_sighandler P B K G sig context w
      = Exit 1
          (log w ([E_fflush_stdout;
                   E_fprintf_stderr (other_signal_banner P sig)]
                  ++ (if PC_ACCESS B
                      then [E_fprintf_stderr (explain_context P B context)]
                      else [])
                  ++ [E_fprintf_stderr (address_line P (cr2 context));
                      E_MR_trace_report]
                  ++ final_report B G))).
Proof.
  split; [|split].
  - intros Hstrange. unfold complex_segvhandler.
    destruct info as [info'|]; [|exec; reflexivity].
    destruct Hstrange as [Hsig|Hsigno].
    + destruct (Z.eqb_spec sig (SIGSEGV P)); [contradiction|].
      cbn [negb orb]. exec. reflexivity.
    + destruct (Z.eqb_spec (si_signo info') (SIGSEGV P)); [contradiction|].
      cbn [negb]. rewrite orb_true_r. exec. reflexivity.
  - intros Hstrange. unfold complex_bushandler.
    destruct info as [info'|]; [|exec; reflexivity].
    destruct Hstrange as [Hsig|Hsigno].
    + destruct (Z.eqb_spec sig (SIGBUS P)); [contradiction|].
      cbn [negb orb]. exec. reflexivity.
    + destruct (Z.eqb_spec (si_signo info') (SIGBUS P)); [contradiction|].
      cbn [negb]. rewrite orb_true_r. exec. reflexivity.
  - intros Hsig. unfold complex_sighandler, other_signal_banner, address_line,
      explain_context. cbv zeta.
    destruct (Z.eqb_spec sig (SIGSEGV P)); [contradiction|].
    destruct (sig =? SIGBUS P), (PC_ACCESS B); exec;
      rewrite exit_from_signal_handler_spec, !log_log; reflexivity.
Qed.

Lemma strange_delivery_is_fatal_witness :
  complex_segvhandler linux_x86 siginfo_build obliging_os (quiet []) 7
    (Some growable_fault) a_context (start_world [detstack])
  = Exit 1 {| used_memory_zones := [detstack];
              trace := [E_fprintf_stderr (nl +++ "*** Mercury runtime: ");
                        E_fprintf_stderr
                          ("caught strange segmentation violation ***" +++ nl)] |}
  /\ used_memory_zones
       (world_of (complex_sighandler linux_x86 sigcontext_build obliging_os
                    (quiet []) 7 a_context (start_world [detstack])))
     = [detstack].
Proof.
  destruct (strange_delivery_is_fatal linux_x86 siginfo_build obliging_os (quiet [])
              7 (Some growable_fault) a_context (start_world [detstack]))
    as (Hsegv & _ & _).
  destruct (strange_delivery_is_fatal linux_x86 sigcontext_build obliging_os
              (quiet []) 7 (Some growable_fault) a_context (start_world [detstack]))
    as (_ & _ & Hother).
  split.
  - apply Hsegv. left. discriminate.
  - rewrite Hother by discriminate. reflexivity.
Defined.

(** ** Installing the handlers *)

(** X13.  [setup_signal] installs a handler for [SIGBUS], then one for
    [SIGSEGV], with the calls of the build's convention (and, with
    [sigaction], the flags [SA_SIGINFO | SA_RESTART] on an emptied mask), and
    returns having done nothing else, when no call fails.  When its first
    call fails it reports with [perror] and ends the process without trying
    to install the handler for [SIGSEGV]. *)
Theorem setup_signal_installs P B K w :
  (~ setup_failure P B K w ->
   setup_signal P B K w = Ret tt (log w (setup_calls P B)))
  /\ (first_setup_call_fails P B K w ->
      SIGBUS P <> SIGSEGV P ->
      exists t',
        setup_signal P B K w = Exit 1 (log w t')
        /\ Forall (fun e => ~ installs (SIGSEGV P) e) t'
        /\ exists msg, last t' E_fflush_stdout = E_perror msg).
Proof.
  split.
  - unfold setup_failure, setup_signal, setup_calls.
    destruct (HAVE_SIGCONTEXT_STRUCT B); [|destruct (HAVE_SIGINFO_T B)];
      cbv beta iota zeta delta
        [bind ret exit when emit fprintf_stderr write perror fflush_stdout
         signal sigemptyset sigaction fail_if get_trace];
      cbn [trace log app]; intros Hok.
    + destruct (signal_is_SIG_ERR K (trace w) (SIGBUS P)); [tauto|].
      destruct (signal_is_SIG_ERR K _ (SIGSEGV P)); [tauto|].
      now rewrite log_log.
    + destruct (Z.eqb_spec (sigemptyset_result K (trace w)) 0); [|tauto].
      cbn [negb trace log].
      destruct (Z.eqb_spec (sigaction_result K (trace w ++ [E_sigemptyset]) (SIGBUS P)) 0);
        [|tauto].
      cbn [negb trace log]. rewrite <- app_assoc in *. cbn [app] in *.
      destruct (Z.eqb_spec
                  (sigaction_result K
                     (trace w ++ [E_sigemptyset;
                                  E_sigaction (SIGBUS P)
                                    (Z.lor (SA_SIGINFO P) (SA_RESTART P))
                                    complex_bushandler_ptr]) (SIGSEGV P)) 0);
        [|tauto].
      cbn [negb]. now rewrite !log_log.
    + destruct (signal_is_SIG_ERR K (trace w) (SIGBUS P)); [tauto|].
      destruct (signal_is_SIG_ERR K _ (SIGSEGV P)); [tauto|].
      now rewrite log_log.
  - unfold first_setup_call_fails, setup_signal.
    destruct (HAVE_SIGCONTEXT_STRUCT B); [|destruct (HAVE_SIGINFO_T B)];
      cbv beta iota zeta delta
        [bind ret exit when emit fprintf_stderr write perror fflush_stdout
         signal sigemptyset sigaction fail_if get_trace];
      cbn [trace log app]; intros Hfail Hne.
    + rewrite Hfail, log_log. eexists. split; [reflexivity|]. cbn.
      split; [repeat constructor; cbn; tauto|eauto].
    + destruct (Z.eqb_spec (sigemptyset_result K (trace w)) 0); [contradiction|].
      cbn [negb]. rewrite log_log. eexists. split; [reflexivity|]. cbn.
      split; [repeat constructor; cbn; tauto|eauto].
    + rewrite Hfail, log_log. eexists. split; [reflexivity|]. cbn.
      split; [repeat constructor; cbn; tauto|eauto].
Qed.

Lemma setup_signal_installs_witness :
  setup_signal linux_x86 siginfo_build obliging_os (start_world [detstack])
  = Ret tt {| used_memory_zones := [detstack];
              trace := [E_sigemptyset;
                        E_sigaction 7 268435460 complex_bushandler_ptr;
                        E_sigaction 11 268435460 complex_segvhandler_ptr] |}
  /\ exists t',
       setup_signal linux_x86 minimal_build refusing_os (start_world [detstack])
       = Exit 1 (log (start_world [detstack]) t')
       /\ Forall (fun e => ~ installs 11 e) t'.
Proof.
  destruct (setup_signal_installs linux_x86 siginfo_build obliging_os
              (start_world [detstack])) as [Hok _].
  destruct (setup_signal_installs linux_x86 minimal_build refusing_os
              (start_world [detstack])) as [_ Hfail].
  split.
  - rewrite Hok; [reflexivity|]. cbn. intros [H|[H|H]]; now apply H.
  - destruct Hfail as (t' & Hrun & Hnone & _); [reflexivity|discriminate|].
    exists t'. split; assumption.
Defined.

(** ** Edges of the stack dump *)

Lemma maximal_runs_length l : (List.length (maximal_runs l) <= List.length l)%nat.
Proof.
  induction l as [|x l IH]; [reflexivity|].
  cbn [maximal_runs]. destruct (maximal_runs l) as [|[y c] rs]; cbn in *; [lia|].
  destruct (x =? y)%string; cbn; lia.
Qed.

Lemma leading_repeat_all x n : leading x (repeat x n) = n.
Proof. induction n; cbn; [reflexivity|]. now rewrite String.eqb_refl, IHn. Qed.

Lemma maximal_runs_repeat x n :
  maximal_runs (repeat x (S n)) = [(x, Z.of_nat (S n))].
Proof.
  cbn [repeat]. rewrite maximal_runs_cons, leading_repeat_all.
  rewrite skipn_all2 by (rewrite repeat_length; lia).
  cbn [maximal_runs]. f_equal. f_equal. lia.
Qed.

Lemma maximal_runs_no_repeats l :
  no_repeats l -> maximal_runs l = map (fun x => (x, 1)) l.
Proof.
  induction l as [|x l IH]; [reflexivity|]. intros Hl.
  destruct l as [|y l]; [reflexivity|]. destruct Hl as [Hxy Hrest].
  change (maximal_runs (x :: y :: l))
    with (match maximal_runs (y :: l) with
          | (y', c) :: rs =>
              if (x =? y')%string then (x, c + 1) :: rs else (x, 1) :: (y', c) :: rs
          | [] => [(x, 1)]
          end).
  rewrite (IH Hrest). cbn [map].
  destruct (String.eqb_spec x y); [contradiction|reflexivity].
Qed.

(** X14.  Edges of the dump, in a build with [MR_LOWLEVEL_DEBUG]: between
    header and trailer [print_dump_stack] writes at most as many lines as
    there are recorded labels; none for an empty history; a single line
    "<label> * <n>" for a history of [n >= 2] copies of one label; and, when
    no two consecutive labels are the same, one line per label, the label
    alone. *)
Theorem print_dump_stack_edges B G w :
  MR_LOWLEVEL_DEBUG B = true ->
  exists lines,
    print_dump_stack B G w
    = Ret tt (log w ([E_write STDERR dump_header]
                     ++ map (E_write STDERR) lines
                     ++ [E_write STDERR dump_trailer]))
    /\ (List.length lines <= List.length (dumpstack G))%nat
    /\ (dumpstack G = [] -> lines = [])
    /\ (forall x n,
          (2 <= n)%nat -> dumpstack G = repeat x n ->
          lines = [x +++ " * " +++ decimal (Z.of_nat n) +++ nl])
    /\ (no_repeats (dumpstack G) ->
        lines = map (fun x => x +++ nl) (dumpstack G)).
Proof.
  intros Hdebug.
  exists (map (fun r => dump_line (fst r) (snd r)) (maximal_runs (dumpstack G))).
  split; [|split; [|split; [|split]]].
  - rewrite print_dump_stack_spec. unfold dump_output. rewrite Hdebug.
    now rewrite map_map.
  - rewrite length_map. apply maximal_runs_length.
  - intros ->. reflexivity.
  - intros x n Hn ->. destruct n as [|n]; [lia|].
    rewrite maximal_runs_repeat. cbn [map fst snd]. unfold dump_line, fmt_d.
    destruct (Z.ltb_spec 1 (Z.of_nat (S n))); [reflexivity|lia].
  - intros Hl. rewrite (maximal_runs_no_repeats _ Hl), map_map. reflexivity.
Qed.

Lemma print_dump_stack_edges_witness :
  exists lines,
    print_dump_stack debug_build (quiet ["loop"; "loop"; "loop"]) (start_world [])
    = Ret tt (log (start_world [])
                ([E_write STDERR dump_header]
                 ++ map (E_write STDERR) lines
                 ++ [E_write STDERR dump_trailer]))
    /\ lines = ["loop * 3" +++ nl].
Proof.
  destruct (print_dump_stack_edges debug_build (quiet ["loop"; "loop"; "loop"])
              (start_world []) eq_refl)
    as (lines & Hrun & _ & _ & Hsame & _).
  exists lines. split; [exact Hrun|].
  apply (Hsame "loop" 3%nat); [lia|reflexivity].
Defined.

(** ** What no operation does to a zone *)

Lemma same_but_redzone_refl z : same_but_redzone z z.
Proof. unfold same_but_redzone. now destruct z. Qed.

Lemma same_but_redzone_trans x y z :
  same_but_redzone x y -> same_but_redzone y z -> same_but_redzone x z.
Proof. unfold same_but_redzone. intros Hxy ->. now rewrite Hxy. Qed.

Lemma store_zone_Forall2 (T : MemoryZone -> MemoryZone -> Prop) i z z' zs :
  (forall y, T y y) -> nth_error zs i = Some z -> T z z' ->
  Forall2 T zs (store_zone i z' zs).
Proof.
  intros Hrefl. revert i. induction zs as [|y zs IH]; intros [|i] Hi Hz; cbn in *;
    try discriminate.
  - injection Hi as ->. constructor; [assumption|now apply Forall2_refl_of].
  - constructor; [apply Hrefl|now apply IH].
Qed.

(** X15.  Only the redzone of a zone is ever written.  Over every operation,
    in every build, for every argument and whatever the outcome (no
    assumption on addresses or wrap-around), the list of used zones keeps its
    length and order, and every zone keeps its name, id, [min], [top],
    [hardmax] and handler. *)
Theorem only_redzone_is_written P B K G op w :
  Forall2 (fun z z' =>
             z' = set_redzone z (redzone z')
             /\ name z' = name z /\ id z' = id z /\ min z' = min z
             /\ top z' = top z /\ hardmax z' = hardmax z
             /\ handler z' = handler z)
          (used_memory_zones w)
          (used_memory_zones (world_of (run P B K G op w)))
  /\ List.length (used_memory_zones (world_of (run P B K G op w)))
     = List.length (used_memory_zones w).
Proof.
  assert (Hsame : Forall2 same_but_redzone (used_memory_zones w)
                    (used_memory_zones (world_of (run P B K G op w)))).
  { destruct (is_direct_default_handler op) eqn:Hop.
    - destruct op; try discriminate. cbn [run].
      unfold on_zone, bind at 1, get_used_memory_zones.
      destruct (nth_error (used_memory_zones w) i) as [z|] eqn:Hz;
        [|apply Forall2_refl_of, same_but_redzone_refl].
      unfold bind.
      pose proof (keeps_default_handler P B K G fault_addr z context w) as Hk.
      destruct (full_build B) eqn:Hfull.
      + destruct (Z.le_gt_cases (new_boundary P G fault_addr) (hardmax z)) as [Hle|Hgt].
        * destruct (Z.le_gt_cases 0
                      (unprotect_result P K G z (new_boundary P G fault_addr) w))
            as [Hok|Hfail].
          -- rewrite default_handler_grows by assumption. cbn.
             apply (store_zone_Forall2 _ i z);
               [apply same_but_redzone_refl|assumption|reflexivity].
          -- rewrite default_handler_refused by assumption.
             apply Forall2_refl_of, same_but_redzone_refl.
        * rewrite default_handler_overflows by assumption.
          apply Forall2_refl_of, same_but_redzone_refl.
      + rewrite default_handler_stub by assumption. cbn.
        rewrite store_zone_same by assumption.
        apply Forall2_refl_of, same_but_redzone_refl.
    - revert w.
      change (steps_within (Forall2 same_but_redzone) (run P B K G op)).
      apply run_within; [| | |assumption].
      + intros zs. apply Forall2_refl_of, same_but_redzone_refl.
      + intros zs1 zs2 zs3. apply Forall2_trans_of, same_but_redzone_trans.
      + intros a context w.
        destruct (try_munprotect_zones P B K G a context w)
          as [->|(pre & z & post & Hw & _ & _ & _ & _ & ->)].
        * apply Forall2_refl_of, same_but_redzone_refl.
        * cbn. rewrite Hw. apply Forall2_app.
          -- apply Forall2_refl_of, same_but_redzone_refl.
          -- constructor; [reflexivity|].
             apply Forall2_refl_of, same_but_redzone_refl. }
  split.
  - induction Hsame as [|z z' zs zs' Hz _ IH]; constructor; [|exact IH].
    split; [exact Hz|]. rewrite Hz. repeat split.
  - symmetry. eapply Forall2_length; eauto.
Qed.

(** No operation, whatever its arguments, moves a redzone above [hardmax]. *)
Lemma run_keeps_below_hardmax P B K G op w :
  Forall (fun z => redzone z <= hardmax z) (used_memory_zones w) ->
  Forall (fun z => redzone z <= hardmax z)
         (used_memory_zones (world_of (run P B K G op w))).
Proof.
  destruct (is_direct_default_handler op) eqn:Hop.
  - destruct op; try discriminate. cbn [run]. intros Hinv.
    unfold on_zone, bind at 1, get_used_memory_zones.
    destruct (nth_error (used_memory_zones w) i) as [z|] eqn:Hz; [|exact Hinv].
    unfold bind.
    assert (Hinvz : redzone z <= hardmax z).
    { rewrite Forall_forall in Hinv. apply Hinv. eapply nth_error_In; eauto. }
    destruct (full_build B) eqn:Hfull.
    + destruct (Z.le_gt_cases (new_boundary P G fault_addr) (hardmax z)) as [Hle|Hgt].
      * destruct (Z.le_gt_cases 0
                    (unprotect_result P K G z (new_boundary P G fault_addr) w))
          as [Hok|Hfail].
        -- rewrite default_handler_grows by assumption. cbn.
           apply store_zone_Forall; [assumption|exact Hle].
        -- rewrite default_handler_refused by assumption. exact Hinv.
      * rewrite default_handler_overflows by assumption. exact Hinv.
    + rewrite default_handler_stub by assumption. cbn.
      apply store_zone_Forall; assumption.
  - revert w.
    change (steps_within
              (fun zs zs' => Forall (fun z => redzone z <= hardmax z) zs ->
                             Forall (fun z => redzone z <= hardmax z) zs')
              (run P B K G op)).
    apply run_within; [auto|auto| |assumption].
    intros a context w Hinv.
    destruct (try_munprotect_zones P B K G a context w)
      as [->|(pre & z & post & Hw & _ & _ & _ & Hle & ->)]; [assumption|].
    cbn. rewrite Hw in Hinv. apply Forall_app in Hinv. destruct Hinv as [Hpre Hrest].
    inversion Hrest as [|? ? Hinvz Hpost]; subst.
    apply Forall_app. split; [assumption|]. constructor; [exact Hle|assumption].
Qed.

(** X16.  The redzone is never moved above [hardmax], with no assumption on
    where the zones lie, on the arguments of the operations or on
    wrap-around: if every used zone starts with [redzone <= hardmax], every
    used zone has [redzone <= hardmax] after any sequence of operations of
    the file, each called with any arguments (a direct call of
    [default_handler] with any fault address included), whether the
    operations return or end the process. *)
Theorem redzone_never_above_hardmax P B K G w0 w :
  Forall (fun z => redzone z <= hardmax z) (used_memory_zones w0) ->
  reachable_by_any P B K G w0 w ->
  Forall (fun z => redzone z <= hardmax z) (used_memory_zones w).
Proof.
  intros Hstart Hreach. induction Hreach as [|w op _ IH]; [assumption|].
  now apply run_keeps_below_hardmax.
Qed.

(** A direct call whose address arithmetic wraps around, followed by a
    routed fault. *)
Lemma redzone_never_above_hardmax_witness :
  Forall (fun z => redzone z <= hardmax z)
    (used_memory_zones
       (world_of
          (run linux_x86 siginfo_build obliging_os (quiet [])
             (op_try_munprotect 36860 a_context)
             (world_of
                (run linux_x86 siginfo_build obliging_os (quiet [])
                   (op_default_handler 0 4294967292 a_context)
                   (start_world [detstack_near_ceiling])))))).
Proof.
  apply (redzone_never_above_hardmax linux_x86 siginfo_build obliging_os (quiet [])
           (start_world [detstack_near_ceiling])).
  - repeat constructor; cbn; lia.
  - apply reachable_by_any_step. apply reachable_by_any_step.
    apply reachable_by_any_start.
Defined.
